(** * Stock-Analysis: the TSX viewer script [src/app.py]

    A shallow embedding of the helpers of [app.py] (symbol normaliser, ticker
    list loader, price downloader, wide-to-tidy reshaper) and of the filter,
    pagination and navigation arithmetic of its UI script, together with the
    properties stated about them.

    Conventions.
    - A Python [str] is a list of characters, a character an [ascii] whose
      code is the code point.  [str.strip], [str.upper] and [str.lower] are
      written out for ASCII text, code points below 128; outside that range
      Python strips more characters (U+0085, U+00A0) and changes the case of
      more letters.  Every property of a function that strips or changes
      case is therefore stated for ASCII input ([ascii_only]).
    - Python integers are [Z]; list slices follow Python's rules for
      negative and out-of-range bounds.
    - A finite float is the rational it denotes ([Q]); the missing value is a
      separate constructor [NaN].
    - A call that raises returns [Raise e]. *)

From Stdlib Require Import Ascii String.
From Stdlib Require Import List ZArith QArith Bool Lia.
From Stdlib Require Import Permutation Sorted.
Import ListNotations.
Close Scope Q_scope.
Close Scope string_scope.

Set Implicit Arguments.

(* ===================================================================== *)
(** ** Python strings and slices *)
(* ===================================================================== *)

Module PyStr.

Definition str := list ascii.

(** A string literal of the source. *)
Definition lit (s : string) : str := list_ascii_of_string s.

Definition code (c : ascii) : N := N_of_ascii c.

(** Code points below 128. *)
Definition is_ascii (c : ascii) : bool := (code c <? 128)%N.

(** A string of ASCII characters only. *)
Definition ascii_only (s : str) : bool := forallb is_ascii s.

(** [str.isspace] on one ASCII character: TAB, LF, VT, FF, CR, the four
    separators FS, GS, RS, US, and the space.  Right for code points below
    128 only. *)
Definition is_space (c : ascii) : bool :=
  let n := code c in
  ((9 <=? n) && (n <=? 13) || (28 <=? n) && (n <=? 32))%N.

(** [str.upper] on one ASCII character.  Right for code points below 128
    only. *)
Definition upper_char (c : ascii) : ascii :=
  let n := code c in
  if ((97 <=? n) && (n <=? 122))%N then ascii_of_N (n - 32) else c.

(** [str.lower] on one ASCII character.  Right for code points below 128
    only. *)
Definition lower_char (c : ascii) : ascii :=
  let n := code c in
  if ((65 <=? n) && (n <=? 90))%N then ascii_of_N (n + 32) else c.

Definition upper (s : str) : str := map upper_char s.
Definition lower (s : str) : str := map lower_char s.

Fixpoint lstrip (s : str) : str :=
  match s with
  | c :: s' => if is_space c then lstrip s' else s
  | [] => []
  end.

Definition rstrip (s : str) : str := rev (lstrip (rev s)).

(** [s.strip()] *)
Definition strip (s : str) : str := rstrip (lstrip s).

Fixpoint str_eqb (a b : str) : bool :=
  match a, b with
  | [], [] => true
  | x :: a', y :: b' => Ascii.eqb x y && str_eqb a' b'
  | _, _ => false
  end.

(** [s.startswith(p)] *)
Fixpoint startswith (s p : str) {struct p} : bool :=
  match p, s with
  | [], _ => true
  | y :: p', x :: s' => Ascii.eqb x y && startswith s' p'
  | _ :: _, [] => false
  end.

(** [s.endswith(suf)] *)
Definition endswith (s suf : str) : bool := startswith (rev s) (rev suf).

(** [c in s] for a one-character string [c]. *)
Definition contains (c : ascii) (s : str) : bool := existsb (Ascii.eqb c) s.

(** Truth value of a string: [not s]. *)
Definition is_empty (s : str) : bool :=
  match s with [] => true | _ => false end.

(** Code-point order of Python's [<=] on strings. *)
Fixpoint str_leb (a b : str) : bool :=
  match a, b with
  | [], _ => true
  | _ :: _, [] => false
  | x :: a', y :: b' =>
      if (code x <? code y)%N then true
      else if (code y <? code x)%N then false
      else str_leb a' b'
  end.

End PyStr.
Import PyStr.

Module PySeq.

(** A slice bound [i] of a sequence of length [len]: a negative bound counts
    from the end, and every bound is clipped to [0 .. len]. *)
Definition norm_index (len i : Z) : Z :=
  if (i <? 0)%Z then Z.max 0 (i + len) else Z.min i len.

(** [l[lo:hi]] *)
Definition slice {A : Type} (l : list A) (lo hi : Z) : list A :=
  let n := Z.of_nat (length l) in
  let a := norm_index n lo in
  let b := norm_index n hi in
  firstn (Z.to_nat (b - a)) (skipn (Z.to_nat a) l).

(** [l[:hi]] *)
Definition slice_to {A : Type} (l : list A) (hi : Z) : list A := slice l 0 hi.

End PySeq.
Import PySeq.

(* ===================================================================== *)
(** ** Symbol normaliser *)
(* ===================================================================== *)

(** [map_to_yahoo(symbol)] on an ASCII string.  The argument [None] is
    folded into the empty string by [symbol or ""], so the parameter is a
    string. *)
Definition map_to_yahoo (symbol : str) : str :=
  let s := upper (strip symbol) in
  if is_empty s then s
  else if endswith s (lit ":TSXV") then slice_to s (-5) ++ lit ".V"
  else if endswith s (lit ":TSX") then slice_to s (-4) ++ lit ".TO"
  else if contains "."%char s then s else s ++ lit ".TO".

(* ===================================================================== *)
(** ** Results of calls that may raise, sorting, de-duplication *)
(* ===================================================================== *)

Module Py.

Inductive exn := KeyError | ValueError | TypeError | OSError | AttributeError.

Inductive result (A : Type) : Type :=
| Ok (a : A)
| Raise (e : exn).
Arguments Ok {A} a.
Arguments Raise {A} e.

Definition bind {A B : Type} (m : result A) (k : A -> result B) : result B :=
  match m with
  | Ok a => k a
  | Raise e => Raise e
  end.

Fixpoint mapM {A B : Type} (f : A -> result B) (l : list A) : result (list B) :=
  match l with
  | [] => Ok []
  | x :: l' =>
      bind (f x) (fun y => bind (mapM f l') (fun ys => Ok (y :: ys)))
  end.

Section Sorting.
Variable A : Type.
Variable leb : A -> A -> bool.

Fixpoint insert (x : A) (l : list A) : list A :=
  match l with
  | [] => [x]
  | y :: l' => if leb x y then x :: l else y :: insert x l'
  end.

(** Stable sort by [leb]; on a total order it computes what [sorted(l)]
    and a stable [sort_values] compute. *)
Definition sort_by (l : list A) : list A := fold_right insert [] l.
End Sorting.

Section Unique.
Variable A : Type.
Variable eqb : A -> A -> bool.

Definition mem (x : A) (l : list A) : bool := existsb (eqb x) l.

(** Distinct elements in order of first appearance ([Series.unique],
    and a set once its order is forgotten by a later sort). *)
Fixpoint unique (l : list A) : list A :=
  match l with
  | [] => []
  | x :: l' => x :: filter (fun y => negb (eqb x y)) (unique l')
  end.

(** Position of the first element equal to [x]. *)
Fixpoint index_of (x : A) (l : list A) : option nat :=
  match l with
  | [] => None
  | y :: l' => if eqb x y then Some 0%nat else option_map S (index_of x l')
  end.
End Unique.

(** [sorted(l)] on strings. *)
Definition sorted (l : list str) : list str := sort_by str_leb l.

(** [range(n)] *)
Definition range (n : nat) : list Z := map Z.of_nat (seq 0 n).

(** [math.ceil(n / d)] for integers [n] and [d > 0].  The quotient is a
    float in the source; for [|n| < 2^53] its ceiling is the ceiling of the
    exact quotient. *)
Definition ceil_div (n d : Z) : Z := (- ((- n) / d))%Z.

End Py.
Import Py.

Notation "x <- m ;; k" := (bind m (fun x => k))
  (at level 61, m at next level, right associativity).

(* ===================================================================== *)
(** ** Tables *)
(* ===================================================================== *)

Module Pandas.

(** A cell: the missing value, a float, a string, a timestamp (as a day
    number) or an integer. *)
Inductive value :=
| NaN
| Num (q : Q)
| Str (s : str)
| Date (d : Z)
| Int (i : Z).

Definition isna (v : value) : bool :=
  match v with NaN => true | _ => false end.

Definition value_eqb (a b : value) : bool :=
  match a, b with
  | NaN, NaN => true
  | Num x, Num y => Qeq_bool x y
  | Str x, Str y => str_eqb x y
  | Date x, Date y => Z.eqb x y
  | Int x, Int y => Z.eqb x y
  | _, _ => false
  end.

Inductive dtype := Datetime | Integer.

(** A row index: its name, the type of its labels, the labels. *)
Record Index := mkIndex {
  idx_name : option str;
  idx_dtype : dtype;
  labels : list Z
}.

(** A frame with single-level columns, stored by rows. *)
Record DataFrame := mkDataFrame {
  index : Index;
  columns : list str;
  rows : list (list value)
}.

Definition RangeIndex (n : nat) : Index := mkIndex None Integer (range n).

(** [pd.DataFrame()] *)
Definition empty_frame : DataFrame := mkDataFrame (RangeIndex 0) [] [].

(** [df.empty] *)
Definition is_empty_frame (df : DataFrame) : bool :=
  match columns df, rows df with
  | [], _ => true
  | _, [] => true
  | _, _ => false
  end.

Definition label_value (t : dtype) (z : Z) : value :=
  match t with Datetime => Date z | Integer => Int z end.

Definition cell (k : nat) (row : list value) : value := nth k row NaN.

(** [df[name]]: the cells of the first column called [name]. *)
Definition column (df : DataFrame) (name : str) : result (list value) :=
  match index_of str_eqb name (columns df) with
  | None => Raise KeyError
  | Some k => Ok (map (cell k) (rows df))
  end.

(** [df.reset_index()]: the index becomes the first column, named after the
    index ("index", or "level_0" when "index" is taken, for an unnamed one);
    inserting a name that is already a column raises. *)
Definition reset_index (df : DataFrame) : result DataFrame :=
  let name :=
    match idx_name (index df) with
    | Some n => n
    | None => if mem str_eqb (lit "index") (columns df)
              then lit "level_0" else lit "index"
    end in
  if mem str_eqb name (columns df) then Raise ValueError
  else
    Ok (mkDataFrame
          (RangeIndex (length (labels (index df))))
          (name :: columns df)
          (map (fun p => label_value (idx_dtype (index df)) (fst p) :: snd p)
               (combine (labels (index df)) (rows df)))).

(** Positions [0 .. n-1] other than [k]. *)
Definition positions_except (k n : nat) : list nat :=
  filter (fun j => negb (Nat.eqb j k)) (seq 0 n).

(** [frame.melt(id_vars=id_var, var_name=var_name, value_name=value_name)]
    with one identifier column: one output row per (value column, input row),
    value columns outermost.  [value_name_check] is the check of pandas 2
    that refuses a frame which already has a column called [value_name]
    (pandas 1 only warns). *)
Definition melt (value_name_check : bool) (frame : DataFrame)
    (id_var var_name value_name : str) : result DataFrame :=
  if value_name_check && mem str_eqb value_name (columns frame)
  then Raise ValueError
  else
    match index_of str_eqb id_var (columns frame) with
    | None => Raise KeyError
    | Some k =>
        let out :=
          flat_map
            (fun j =>
               map (fun r => [cell k r; Str (nth j (columns frame) []); cell j r])
                   (rows frame))
            (positions_except k (length (columns frame))) in
        Ok (mkDataFrame (RangeIndex (length out))
                        [id_var; var_name; value_name] out)
    end.

(** [df.dropna(subset=[name])]: rows whose cell in column [name] is
    missing are dropped, the others keep their index labels. *)
Definition dropna_subset (df : DataFrame) (name : str) : result DataFrame :=
  match index_of str_eqb name (columns df) with
  | None => Raise KeyError
  | Some k =>
      let kept :=
        filter (fun p => negb (isna (cell k (snd p))))
               (combine (labels (index df)) (rows df)) in
      Ok (mkDataFrame
            (mkIndex (idx_name (index df)) (idx_dtype (index df)) (map fst kept))
            (columns df)
            (map snd kept))
  end.

(** [df.iloc[:, js]] on the cells. *)
Definition take_columns (js : list nat) (rs : list (list value)) :
    list (list value) :=
  map (fun r => map (fun j => cell j r) js) rs.

(** [df.sort_index()] *)
Definition sort_index (df : DataFrame) : DataFrame :=
  let s := sort_by (fun p q : Z * list value => (fst p <=? fst q)%Z)
                   (combine (labels (index df)) (rows df)) in
  mkDataFrame
    (mkIndex (idx_name (index df)) (idx_dtype (index df)) (map fst s))
    (columns df) (map snd s).

(** [df.dropna(axis=1, how="all")]: a column without any present value is
    dropped. *)
Definition dropna_all_columns (df : DataFrame) : DataFrame :=
  let js :=
    filter (fun j => existsb (fun r => negb (isna (cell j r))) (rows df))
           (seq 0 (length (columns df))) in
  mkDataFrame (index df)
              (map (fun j => nth j (columns df) []) js)
              (take_columns js (rows df)).

Fixpoint fill_row (prev row : list value) : list value :=
  match row with
  | [] => []
  | v :: row' =>
      (if isna v then hd NaN prev else v) :: fill_row (tl prev) row'
  end.

Fixpoint ffill_rows (prev : list value) (rs : list (list value)) :
    list (list value) :=
  match rs with
  | [] => []
  | r :: rs' => let r' := fill_row prev r in r' :: ffill_rows r' rs'
  end.

(** [df.ffill()]: a missing cell takes the last present value above it. *)
Definition ffill (df : DataFrame) : DataFrame :=
  mkDataFrame (index df) (columns df) (ffill_rows [] (rows df)).

End Pandas.
Import Pandas.
(* ===================================================================== *)
(** ** Ticker list loader *)
(* ===================================================================== *)

Module Files.

(** What [pd.read_csv] makes of a file: the header and, per row, the text of
    each cell as [astype(str)] later shows it; [None] is an empty cell. *)
Record CsvTable := mkCsv {
  csv_columns : list str;
  csv_rows : list (list (option str))
}.

(** A path that exists names a file [read_csv] can parse, or anything else
    (a directory, a file without read permission, bytes that are no CSV). *)
Inductive entry :=
| CsvFile (t : CsvTable)
| Unreadable.

(** The file system: [None] for a path that does not exist. *)
Definition filesystem := str -> option entry.

Definition exists_ (fs : filesystem) (p : str) : bool :=
  match fs p with Some _ => true | None => false end.

Definition read_csv (fs : filesystem) (p : str) : result CsvTable :=
  match fs p with
  | Some (CsvFile t) => Ok t
  | _ => Raise OSError
  end.

End Files.
Import Files.

(** What a call prints on the page, and what it returns. *)
Record outcome (A : Type) := mkOutcome {
  warnings : list str;
  returned : result A
}.

Definition big6 : list str :=
  [lit "RY.TO"; lit "TD.TO"; lit "BNS.TO"; lit "BMO.TO"; lit "CM.TO";
   lit "NA.TO"].

Definition no_ticker_column_warning : str :=
  lit "No 'Ticker' column in CSV; falling back to Big 6 banks.".

(** [str(c).strip().lower() in ("ticker", "symbol")] *)
Definition is_symbol_column (c : str) : bool :=
  let n := lower (strip c) in
  str_eqb n (lit "ticker") || str_eqb n (lit "symbol").

(** [astype(str)] on one cell.  pandas 2 turns a missing cell into the
    text "nan" ([na_as_text = true]); pandas 3 leaves it missing
    ([na_as_text = false]). *)
Definition astype_str (na_as_text : bool) (c : option str) : option str :=
  match c with
  | Some s => Some s
  | None => if na_as_text then Some (lit "nan") else None
  end.

(** [re.sub(r":TSXV?$", "", s)] for a string [s] that does not end in a
    newline (it is applied to stripped strings), so that [$] is the end of
    the string. *)
Definition sub_tsx_suffix (s : str) : str :=
  if endswith s (lit ":TSXV") then slice_to s (-5)
  else if endswith s (lit ":TSX") then slice_to s (-4)
  else s.

(** One element of [base]: [.str.strip()] and [.str.replace(...)] work on
    the text of a cell and leave a missing cell missing. *)
Definition base_cell (na_as_text : bool) (c : option str) : option str :=
  option_map (fun s => sub_tsx_suffix (strip s)) (astype_str na_as_text c).

(** One step of [{map_to_yahoo(s) for s in base if s}].  An empty text is
    skipped.  A missing element is a float NaN: it is true, and
    [map_to_yahoo] fails on it with [AttributeError], a float having no
    [strip]. *)
Definition normalise_cell (b : option str) : result (list str) :=
  match b with
  | Some s => Ok (if is_empty s then [] else [map_to_yahoo s])
  | None => Raise AttributeError
  end.

(** [load_ticker_list(csv_path)] on the file system [fs]; [na_as_text]
    selects the behaviour of [astype(str)] in pandas 2 ([true]) or pandas 3
    ([false]).  The memo of [st.cache_data] is left out: it returns what the
    first call with the same path returned. *)
Definition load_ticker_list (na_as_text : bool) (fs : filesystem)
    (csv_path : option str) : outcome (list str) :=
  match csv_path with
  | Some p =>
      if negb (is_empty p) && exists_ fs p then
        match read_csv fs p with
        | Raise e => mkOutcome [] (Raise e)
        | Ok df =>
            match find is_symbol_column (csv_columns df) with
            | None => mkOutcome [no_ticker_column_warning] (Ok big6)
            | Some col =>
                let k :=
                  match index_of str_eqb col (csv_columns df) with
                  | Some k => k
                  | None => 0%nat
                  end in
                let base :=
                  map (fun r => base_cell na_as_text (nth k r None))
                      (csv_rows df) in
                mkOutcome []
                  (picked <- mapM normalise_cell base ;;
                   Ok (sorted (unique str_eqb (concat picked))))
            end
        end
      else mkOutcome [] (Ok big6)
  | None => mkOutcome [] (Ok big6)
  end.

(* ===================================================================== *)
(** ** Price downloader *)
(* ===================================================================== *)

Module Yahoo.

(** Column labels of the frame [yf.download] returns: plain field names for
    one ticker, (ticker, field) pairs for several. *)
Inductive col_labels :=
| Flat (names : list str)
| MultiIndex (pairs : list (str * str)).

Record Download := mkDownload {
  dl_index : Index;
  dl_columns : col_labels;
  dl_rows : list (list value)
}.

(** The remote provider: tickers, start and end day to a frame. *)
Definition provider := list str -> Z -> Z -> Download.

End Yahoo.
Import Yahoo.

Definition adj_close : str := lit "Adj Close".

(** [download_prices(tickers, start, end)] against the provider
    [yf_download].  The memo of [st.cache_data] is left out. *)
Definition download_prices (yf_download : provider) (tickers : list str)
    (start end_ : Z) : result DataFrame :=
  match tickers with
  | [] => Ok empty_frame
  | only :: _ =>
      let data := yf_download tickers start end_ in
      out <-
        match dl_columns data with
        | MultiIndex pairs =>
            let cols :=
              filter (fun j => str_eqb (snd (nth j pairs ([], []))) adj_close)
                     (seq 0 (length pairs)) in
            Ok (mkDataFrame (dl_index data)
                            (map (fun j => fst (nth j pairs ([], []))) cols)
                            (take_columns cols (dl_rows data)))
        | Flat names =>
            match index_of str_eqb adj_close names with
            | None => Raise KeyError
            | Some k =>
                Ok (mkDataFrame (dl_index data) [only]
                                (take_columns [k] (dl_rows data)))
            end
        end ;;
      Ok (ffill (dropna_all_columns (sort_index out)))
  end.

(* ===================================================================== *)
(** ** Reshaper *)
(* ===================================================================== *)

(** [tidy_from_wide(adj)]; [value_name_check] selects the behaviour of
    [melt] in pandas 2 ([true]) or pandas 1 ([false]). *)
Definition tidy_from_wide (value_name_check : bool) (adj : DataFrame) :
    result DataFrame :=
  t <- reset_index adj ;;
  t <- melt value_name_check t (lit "Date") (lit "Ticker") adj_close ;;
  dropna_subset t adj_close.

(* ===================================================================== *)
(** ** Filter *)
(* ===================================================================== *)

(** A cell of a numeric column as a float. *)
Definition to_float (v : value) : result (option Q) :=
  match v with
  | NaN => Ok None
  | Num q => Ok (Some q)
  | Int i => Ok (Some (inject_Z i))
  | Str _ | Date _ => Raise TypeError
  end.

(** [a > b] on floats. *)
Definition Qgtb (a b : Q) : bool := negb (Qle_bool a b).

Definition max_opt (a b : option Q) : option Q :=
  match a, b with
  | None, _ => b
  | _, None => a
  | Some x, Some y => if Qle_bool x y then Some y else Some x
  end.

(** Maximum of a group, missing values skipped. *)
Definition group_max (ps : list (option Q)) : option Q :=
  fold_right max_opt None ps.

(** [tidy.groupby("Ticker")["Adj Close"].max()] as (key, maximum) pairs.
    Missing keys form no group.  pandas lists the keys in sorted order; the
    script uses them through [isin] and [len] only, and they are kept here
    in order of first appearance. *)
Definition max_by_ticker (tidy : DataFrame) : result (list (value * option Q)) :=
  ks <- column tidy (lit "Ticker") ;;
  vs <- column tidy adj_close ;;
  ps <- mapM to_float vs ;;
  let kv := combine ks ps in
  Ok (map (fun k =>
             (k, group_max
                   (map snd (filter (fun p => value_eqb (fst p) k) kv))))
          (unique value_eqb (filter (fun k => negb (isna k)) ks))).

(** [max_by_ticker[max_by_ticker > float(filter_max)].index.tolist()] *)
Definition to_remove (tidy : DataFrame) (filter_max : Z) : result (list value) :=
  m <- max_by_ticker tidy ;;
  Ok (map fst
          (filter (fun kv =>
                     match snd kv with
                     | Some x => Qgtb x (inject_Z filter_max)
                     | None => false
                     end) m)).

(** [tidy[~tidy["Ticker"].isin(to_remove)].copy()] *)
Definition tidy_filtered (tidy : DataFrame) (filter_max : Z) : result DataFrame :=
  gone <- to_remove tidy filter_max ;;
  ks <- column tidy (lit "Ticker") ;;
  let kept :=
    filter (fun p => negb (mem value_eqb (fst p) gone))
           (combine ks (combine (labels (index tidy)) (rows tidy))) in
  Ok (mkDataFrame
        (mkIndex (idx_name (index tidy)) (idx_dtype (index tidy))
                 (map (fun p => fst (snd p)) kept))
        (columns tidy)
        (map (fun p => snd (snd p)) kept)).

(* ===================================================================== *)
(** ** Paginator *)
(* ===================================================================== *)

Definition as_str (v : value) : result str :=
  match v with
  | Str s => Ok s
  | _ => Raise TypeError
  end.

(** [sorted(tidy_filtered["Ticker"].dropna().unique().tolist())] *)
Definition all_tickers_of (tidy_filtered : DataFrame) : result (list str) :=
  ks <- column tidy_filtered (lit "Ticker") ;;
  ts <- mapM as_str (unique value_eqb (filter (fun k => negb (isna k)) ks)) ;;
  Ok (sorted ts).

Section Paginator.
Variable all_tickers : list str.
Variable always_keep : str.
Variable page_size : Z.

Definition has_keep : bool := mem str_eqb always_keep all_tickers.

Definition others : list str :=
  filter (fun t => negb (str_eqb t always_keep)) all_tickers.

Definition per_page : Z :=
  if has_keep then (page_size - 1)%Z else page_size.

Definition total_pages : Z :=
  Z.max 1 (ceil_div (Z.of_nat (length others)) (Z.max 1 per_page)).

Definition select_page (page : Z) : list str :=
  let page := Z.max 1 (Z.min page total_pages) in
  let start_idx := ((page - 1) * per_page)%Z in
  let end_idx := (start_idx + per_page)%Z in
  let page_others := slice others start_idx end_idx in
  let sel := if has_keep then always_keep :: page_others else page_others in
  sorted sel.
End Paginator.

(* ===================================================================== *)
(** ** Page counter and navigation *)
(* ===================================================================== *)

(** The ["page"] entry of [st.session_state]; [None] before the first run. *)
Definition session := option Z.

(** Which of the two buttons reported a click in this run. *)
Record clicks := mkClicks {
  prev_clicked : bool;
  next_clicked : bool
}.

Definition no_click : clicks := mkClicks false false.
Definition click_prev : clicks := mkClicks true false.
Definition click_next : clicks := mkClicks false true.

(** The two button handlers, in the order of the script. *)
Definition controls (total_pages : Z) (c : clicks) (page : Z) : Z :=
  let page := if prev_clicked c then Z.max 1 (page - 1) else page in
  if next_clicked c then Z.min total_pages (page + 1) else page.

(** What one run shows: the label "Page p/total" and the tickers drawn. *)
Record view := mkView {
  page_label : Z * Z;
  selected : list str
}.

(** The settings of one run that pagination reads. *)
Record settings := mkSettings {
  always_keep_input : str;
  page_size_input : Z
}.

(** One run of the script from the pagination list on: the counter is
    created at 1 if absent, the handlers run, the label and the selection
    are computed from the counter. *)
Definition run_pagination (all_tickers : list str) (cfg : settings)
    (c : clicks) (st : session) : session * view :=
  let always_keep := strip (upper (always_keep_input cfg)) in
  let page_size := page_size_input cfg in
  let total := total_pages all_tickers always_keep page_size in
  let page0 := match st with Some p => p | None => 1%Z end in
  let page := controls total c page0 in
  (Some page,
   mkView (page, total) (select_page all_tickers always_keep page_size page)).

(** Successive runs of one browser session; each run has its own ticker
    list, settings and clicks. *)
Fixpoint runs (inputs : list (list str * settings * clicks)) (st : session) :
    session :=
  match inputs with
  | [] => st
  | (ts, cfg, c) :: rest => runs rest (fst (run_pagination ts cfg c st))
  end.
(* ===================================================================== *)
(** ** Vocabulary of the specification *)
(* ===================================================================== *)

(** The exchange qualifiers the normaliser recognises, and the provider
    suffix each one stands for. *)
Inductive qualifier := TSX | TSXV.

Definition qualifier_text (q : qualifier) : str :=
  match q with
  | TSX => lit ":TSX"
  | TSXV => lit ":TSXV"
  end.

Definition provider_suffix (q : qualifier) : str :=
  match q with
  | TSX => lit ".TO"
  | TSXV => lit ".V"
  end.

(** Python's [<=] on strings, as a relation. *)
Definition str_le (a b : str) : Prop := str_leb a b = true.


(** The columns of the tidy form. *)
Definition tidy_columns : list str := [lit "Date"; lit "Ticker"; adj_close].

(** *** Sample data *)

(** A file system with one CSV file without symbol column, one well-formed
    ticker file and one path that exists but cannot be read. *)
Definition sample_fs : filesystem :=
  fun p =>
    if str_eqb p (lit "prices.csv") then
      Some (CsvFile (mkCsv [lit "Name"; lit "Price"]
                           [[Some (lit "Royal Bank"); Some (lit "130.5")]]))
    else if str_eqb p (lit "tickers.csv") then
      Some (CsvFile (mkCsv [lit "Name"; lit " Ticker "]
                           [[Some (lit "Shopify"); Some (lit "shop:TSX")];
                            [Some (lit "Royal Bank"); Some (lit "RY")];
                            [Some (lit "Nobody"); None];
                            [Some (lit "Royal Bank"); Some (lit " ry ")]]))
    else if str_eqb p (lit "dataset") then Some Unreadable
    else None.

(** Two trading days, two tickers, one missing price. *)
Definition sample_wide : DataFrame :=
  mkDataFrame (mkIndex (Some (lit "Date")) Datetime [19000%Z; 19001%Z])
              [lit "RY.TO"; lit "TD.TO"]
              [[Num (100 # 1); NaN]; [Num (101 # 1); Num (80 # 1)]].

Definition sample_tidy : DataFrame :=
  mkDataFrame (mkIndex None Integer [0%Z; 1%Z; 3%Z])
              tidy_columns
              [[Date 19000; Str (lit "RY.TO"); Num (100 # 1)];
               [Date 19001; Str (lit "RY.TO"); Num (101 # 1)];
               [Date 19001; Str (lit "TD.TO"); Num (80 # 1)]].

(** Eleven tickers, none of them the pinned one. *)
Definition sample_tickers : list str :=
  [lit "AC.TO"; lit "BMO.TO"; lit "BNS.TO"; lit "CM.TO"; lit "ENB.TO";
   lit "MFC.TO"; lit "NA.TO"; lit "RY.TO"; lit "SU.TO"; lit "T.TO";
   lit "TD.TO"].

(** A row of a tidy price table: a day, a ticker, a price that is present. *)
Definition tidy_row (r : list value) : bool :=
  match r with
  | [Date _; Str _; Num _] => true
  | _ => false
  end.

(** A tidy price table: the three columns of the tidy form, every row a
    (day, ticker, price) observation, one index label per row. *)
Definition is_tidy (df : DataFrame) : Prop :=
  columns df = tidy_columns /\
  forallb tidy_row (rows df) = true /\
  length (labels (index df)) = length (rows df).

(** The price [q] was observed for ticker [t]. *)
Definition observed (tidy : DataFrame) (t : str) (q : Q) : Prop :=
  exists d, In [Date d; Str t; Num q] (rows tidy).

(** [m] is the maximum observed price of ticker [t]. *)
Definition is_max_price (tidy : DataFrame) (t : str) (m : Q) : Prop :=
  observed tidy t m /\ forall q, observed tidy t q -> (q <= m)%Q.

(** A tidy row from its day, ticker and price. *)
Definition mk_row (x : Z * str * Q) : list value :=
  [Date (fst (fst x)); Str (snd (fst x)); Num (snd x)].

(** The prices listed for ticker [t] among (day, ticker, price) triples. *)
Definition prices_of (trs : list (Z * str * Q)) (t : str) : list Q :=
  map snd (filter (fun x => str_eqb (snd (fst x)) t) trs).

(** A cell of a price column: a float or the missing value. *)
Definition numeric (v : value) : bool :=
  match v with
  | NaN | Num _ => true
  | _ => false
  end.

(** A wide price table as the downloader returns it: indexed by timestamps
    under the name "Date", every cell a price or missing. *)
Definition is_wide (adj : DataFrame) : Prop :=
  idx_name (index adj) = Some (lit "Date") /\
  idx_dtype (index adj) = Datetime /\
  forallb (forallb numeric) (rows adj) = true.

(* ===================================================================== *)
(** ** Presentation *)
(* ===================================================================== *)

(** The double quote character of the HTML attributes. *)
Definition dquote : ascii := ascii_of_nat 34.

(** [f'<span class="ticker-label">{t}</span>'] *)
Definition span (t : str) : str :=
  lit "<span class=" ++ [dquote] ++ lit "ticker-label" ++ [dquote] ++
  lit ">" ++ t ++ lit "</span>".

(** ['<span class="ticker-sep">, </span>'] *)
Definition ticker_sep : str :=
  lit "<span class=" ++ [dquote] ++ lit "ticker-sep" ++ [dquote] ++
  lit ">, </span>".

Definition br : str := lit "<br/>".

(** [sep.join(l)] *)
Fixpoint join (sep : str) (l : list str) : str :=
  match l with
  | [] => []
  | [x] => x
  | x :: l' => x ++ sep ++ join sep l'
  end.

(** [range(0, stop, step)]: a zero step raises. *)
Definition range_step (stop step : Z) : result (list Z) :=
  if (step =? 0)%Z then Raise ValueError
  else
    let count :=
      if (0 <? step)%Z then Z.max 0 (ceil_div stop step)
      else Z.max 0 (ceil_div (- stop) (- step)) in
    Ok (map (fun k => (Z.of_nat k * step)%Z) (seq 0 (Z.to_nat count))).

(** The inner loop over [enumerate(seg)]: the span of each ticker, and the
    separator after it unless its position [j] is [len(seg) - 1]. *)
Fixpoint line_parts (len_seg j : Z) (seg : list str) : list str :=
  match seg with
  | [] => []
  | t :: seg' =>
      span t ::
      (if (j =? len_seg - 1)%Z then [] else [ticker_sep]) ++
      line_parts len_seg (j + 1) seg'
  end.

(** One entry of [lines]: ["".join(parts)]. *)
Definition render_line (seg : list str) : str :=
  concat (line_parts (Z.of_nat (length seg)) 0 seg).

(** [format_ticker_lines(items, per_line)] *)
Definition format_ticker_lines (items : list str) (per_line : Z) : result str :=
  starts <- range_step (Z.of_nat (length items)) per_line ;;
  Ok (join br
        (map (fun i => render_line (slice items i (i + per_line))) starts)).

(* ===================================================================== *)
(** ** Further vocabulary *)
(* ===================================================================== *)

(** The page numbers [1 .. n]. *)
Definition page_numbers (n : Z) : list Z :=
  map (fun k => (Z.of_nat k + 1)%Z) (seq 0 (Z.to_nat n)).

(** The text the loader normalises for a cell of the symbol column that
    reads [s]. *)
Definition base_text (s : str) : str := sub_tsx_suffix (strip s).

(** A CSV table the loader reads as Python does: its column names are ASCII,
    and every cell of column [k] is present and ASCII. *)
Definition ascii_table (t : CsvTable) (k : nat) : bool :=
  forallb ascii_only (csv_columns t) &&
  forallb (fun r => match nth k r None with
                    | Some s => ascii_only s
                    | None => false
                    end)
          (csv_rows t).

(** A ticker file that lists venture-exchange symbols. *)
Definition sample_venture_fs : filesystem :=
  fun p =>
    if str_eqb p (lit "venture.csv") then
      Some (CsvFile (mkCsv [lit "Symbol"; lit "Name"]
                           [[Some (lit "abc:TSXV"); Some (lit "Abc Corp")];
                            [Some (lit "RY:TSX"); Some (lit "Royal Bank")];
                            [Some (lit "ry"); Some (lit "Royal Bank")]]))
    else None.

(** A provider that answers out of date order: for one ticker a frame with
    plain field names, for several a frame with (ticker, field) columns, one
    of which has no price at all. *)
Definition sample_provider : provider :=
  fun tickers _ _ =>
    match tickers with
    | [_] =>
        mkDownload (mkIndex (Some (lit "Date")) Datetime
                            [19002%Z; 19000%Z; 19001%Z])
                   (Flat [lit "Close"; adj_close])
                   [[Num (103 # 1); Num (102 # 1)];
                    [Num (101 # 1); Num (100 # 1)];
                    [Num (102 # 1); NaN]]
    | _ =>
        mkDownload (mkIndex (Some (lit "Date")) Datetime
                            [19002%Z; 19000%Z; 19001%Z])
                   (MultiIndex [(lit "RY.TO", adj_close);
                                (lit "RY.TO", lit "Close");
                                (lit "TD.TO", adj_close);
                                (lit "XX.TO", adj_close)])
                   [[Num (102 # 1); Num (103 # 1); NaN; NaN];
                    [Num (100 # 1); Num (101 # 1); NaN; NaN];
                    [NaN; Num (102 # 1); Num (80 # 1); NaN]]
    end.

(** What the downloader makes of the provider's answer for three tickers. *)
Definition sample_download : DataFrame :=
  mkDataFrame
    (mkIndex (Some (lit "Date")) Datetime [19000%Z; 19001%Z; 19002%Z])
    [lit "RY.TO"; lit "TD.TO"]
    [[Num (100 # 1); NaN];
     [Num (100 # 1); Num (80 # 1)];
     [Num (102 # 1); Num (80 # 1)]].

(** The cell of column [k] in row [r] holds a value. *)
Definition present (k : nat) (r : list value) : Prop :=
  isna (cell k r) = false.

(** A price table whose index has no name. *)
Definition sample_unindexed : DataFrame :=
  mkDataFrame (mkIndex None Integer [0%Z; 1%Z])
              [lit "RY.TO"] [[Num (100 # 1)]; [Num (101 # 1)]].

(* ===================================================================== *)
(** ** Plot data *)
(* ===================================================================== *)

(** [tidy_filtered[tidy_filtered["Ticker"].isin(selected)].copy()] *)
Definition plot_df (tidy_filtered : DataFrame) (selected : list str) :
    result DataFrame :=
  ks <- column tidy_filtered (lit "Ticker") ;;
  let kept :=
    filter (fun p => mem value_eqb (fst p) (map Str selected))
           (combine ks
                    (combine (labels (index tidy_filtered))
                             (rows tidy_filtered))) in
  Ok (mkDataFrame
        (mkIndex (idx_name (index tidy_filtered))
                 (idx_dtype (index tidy_filtered))
                 (map (fun p => fst (snd p)) kept))
        (columns tidy_filtered)
        (map (fun p => snd (snd p)) kept)).

(** The text of a cell that is present. *)
Definition cell_text (c : option str) : str :=
  match c with Some s => s | None => [] end.

(** The cells of a wide table that hold a value, as rows of the tidy form:
    column by column, and within a column in the order of the wide rows,
    one row (day, column name, value) for each cell that is not missing. *)
Definition present_cells (adj : DataFrame) : list (list value) :=
  flat_map
    (fun j =>
       flat_map
         (fun p : Z * list value =>
            if isna (cell j (snd p)) then []
            else [[Date (fst p); Str (nth j (columns adj) []); cell j (snd p)]])
         (combine (labels (index adj)) (rows adj)))
    (seq 0 (length (columns adj))).
(* ===================================================================== *)
(** * Properties *)
(* ===================================================================== *)

(** ** Strings and slices *)

Lemma str_eqb_eq (a b : str) : str_eqb a b = true <-> a = b.
Proof.
  revert b; induction a as [|x a IH]; intros [|y b]; simpl;
    try (split; [discriminate | congruence]); try tauto.
  rewrite andb_true_iff, Ascii.eqb_eq, IH.
  split; [intros [-> ->]; reflexivity | intros E; inversion E; auto].
Qed.

Lemma str_eqb_refl (a : str) : str_eqb a a = true.
Proof. apply str_eqb_eq; reflexivity. Qed.

Lemma str_eqb_neq (a b : str) : str_eqb a b = false <-> a <> b.
Proof.
  rewrite <- str_eqb_eq. destruct (str_eqb a b); split; congruence.
Qed.

Lemma startswith_iff (s p : str) :
  startswith s p = true <-> exists t, s = p ++ t.
Proof.
  revert s; induction p as [|y p IH]; intros s; simpl.
  - split; [intros _; exists s; reflexivity | reflexivity].
  - destruct s as [|x s].
    + split; [discriminate | intros [t E]; discriminate].
    + rewrite andb_true_iff, Ascii.eqb_eq, IH. split.
      * intros [-> [t ->]]. exists t; reflexivity.
      * intros [t E]. inversion E; subst. split; [reflexivity | eauto].
Qed.

Lemma endswith_iff (s suf : str) :
  endswith s suf = true <-> exists p, s = p ++ suf.
Proof.
  unfold endswith. rewrite startswith_iff. split.
  - intros [t E]. exists (rev t).
    rewrite <- (rev_involutive s), E, rev_app_distr, rev_involutive.
    reflexivity.
  - intros [p ->]. exists (rev p). apply rev_app_distr.
Qed.

Lemma endswith_app (p suf : str) : endswith (p ++ suf) suf = true.
Proof. apply endswith_iff. exists p; reflexivity. Qed.

(** [(p + suf)[:-len(suf)]] is [p] for a non-empty [suf]. *)
Lemma slice_to_drop_suffix (A : Type) (p suf : list A) :
  suf <> [] ->
  slice_to (p ++ suf) (- Z.of_nat (length suf)) = p.
Proof.
  intros Hne. unfold slice_to, slice, norm_index.
  assert (0 < length suf)%nat by (destruct suf; simpl; [congruence | lia]).
  rewrite length_app.
  replace (0 <? 0)%Z with false by reflexivity.
  destruct (Z.ltb_spec (- Z.of_nat (length suf)) 0); [| lia].
  replace (Z.to_nat (Z.min 0 _)) with 0%nat by lia.
  simpl skipn.
  replace (Z.to_nat _) with (length p) by lia.
  rewrite firstn_app, Nat.sub_diag, firstn_all. simpl. apply app_nil_r.
Qed.

(** *** Stripped, upper-case strings *)

Definition clean_head (s : str) : bool :=
  match s with
  | [] => true
  | c :: _ => negb (is_space c)
  end.

(** No white space at either end. *)
Definition trimmed (s : str) : Prop :=
  clean_head s = true /\ clean_head (rev s) = true.

(** The shape of [s.strip().upper()]. *)
Definition normal (s : str) : Prop := trimmed s /\ upper s = s.

Lemma is_space_upper_char (c : ascii) : is_space (upper_char c) = is_space c.
Proof. destruct c as [[] [] [] [] [] [] [] []]; reflexivity. Qed.

Lemma upper_char_idem (c : ascii) : upper_char (upper_char c) = upper_char c.
Proof. destruct c as [[] [] [] [] [] [] [] []]; reflexivity. Qed.

Lemma upper_idem (s : str) : upper (upper s) = upper s.
Proof.
  unfold upper. rewrite map_map. apply map_ext. apply upper_char_idem.
Qed.

Lemma clean_head_upper (s : str) : clean_head (upper s) = clean_head s.
Proof. destruct s; simpl; [reflexivity | now rewrite is_space_upper_char]. Qed.

Lemma lstrip_clean (s : str) : clean_head (lstrip s) = true.
Proof.
  induction s as [|c s IH]; simpl; [reflexivity |].
  destruct (is_space c) eqn:E; [exact IH | simpl; now rewrite E].
Qed.

Lemma lstrip_fix (s : str) : clean_head s = true -> lstrip s = s.
Proof.
  destruct s as [|c s]; simpl; [reflexivity |].
  destruct (is_space c); [discriminate | reflexivity].
Qed.

(** [lstrip] removes a prefix. *)
Lemma lstrip_split (s : str) : exists w, s = w ++ lstrip s.
Proof.
  induction s as [|c s [w IH]]; simpl.
  - exists []; reflexivity.
  - destruct (is_space c).
    + exists (c :: w). simpl. now rewrite <- IH.
    + exists []; reflexivity.
Qed.

Lemma clean_head_app_l (a b : str) :
  a <> [] -> clean_head (a ++ b) = clean_head a.
Proof. destruct a; [congruence | reflexivity]. Qed.

Lemma rstrip_clean_head (s : str) :
  clean_head s = true -> clean_head (rstrip s) = true.
Proof.
  intros H. unfold rstrip.
  destruct (lstrip_split (rev s)) as [w E].
  assert (Es : s = rev (lstrip (rev s)) ++ rev w).
  { rewrite <- rev_app_distr, <- E. symmetry; apply rev_involutive. }
  destruct (rev (lstrip (rev s))) as [|c r] eqn:Er; [reflexivity |].
  rewrite Es in H. exact H.
Qed.

Lemma strip_trimmed (s : str) : trimmed (strip s).
Proof.
  split.
  - apply rstrip_clean_head, lstrip_clean.
  - unfold strip, rstrip. rewrite rev_involutive. apply lstrip_clean.
Qed.

Lemma trimmed_strip (s : str) : trimmed s -> strip s = s.
Proof.
  intros [H1 H2]. unfold strip, rstrip.
  rewrite (lstrip_fix _ H1), (lstrip_fix _ H2). apply rev_involutive.
Qed.

Lemma trimmed_upper (s : str) : trimmed s -> trimmed (upper s).
Proof.
  intros [H1 H2]. split.
  - now rewrite clean_head_upper.
  - unfold upper. rewrite <- map_rev. fold (upper (rev s)).
    now rewrite clean_head_upper.
Qed.

Lemma normal_upper_strip (s : str) : normal (upper (strip s)).
Proof.
  split; [apply trimmed_upper, strip_trimmed | apply upper_idem].
Qed.

Lemma normal_fix (s : str) : normal s -> upper (strip s) = s.
Proof. intros [Ht Hu]. now rewrite (trimmed_strip Ht). Qed.

(** Replacing the end [q] of a normal string by a clean upper-case [q']. *)
Lemma normal_replace_suffix (p q q' : str) :
  normal (p ++ q) ->
  upper q = q -> upper q' = q' ->
  q' <> [] -> clean_head q' = true -> clean_head (rev q') = true ->
  normal (p ++ q').
Proof.
  intros [[H1 H2] Hu] Hq Hq' Hne Hc Hr.
  assert (Hp : upper p = p).
  { unfold upper in *. rewrite map_app, Hq in Hu.
    now apply app_inv_tail in Hu. }
  split; [split |].
  - destruct p as [|c p]; [exact Hc | exact H1].
  - rewrite rev_app_distr, clean_head_app_l; [exact Hr |].
    intros E. apply Hne. destruct q'; [reflexivity |].
    simpl in E. now apply app_eq_nil in E as [_ E].
  - unfold upper in *. now rewrite map_app, Hp, Hq'.
Qed.

Lemma contains_app_r (c : ascii) (p q : str) :
  contains c q = true -> contains c (p ++ q) = true.
Proof.
  intros H. unfold contains in *. rewrite existsb_app, H. apply orb_true_r.
Qed.

(** A normal string that is empty, or carries a dot and no exchange
    qualifier, is left alone by the normaliser. *)
Lemma map_to_yahoo_fixed (r : str) :
  normal r ->
  r = [] \/
  (endswith r (lit ":TSXV") = false /\ endswith r (lit ":TSX") = false /\
   contains "."%char r = true) ->
  map_to_yahoo r = r.
Proof.
  intros Hn Hr. unfold map_to_yahoo. rewrite (normal_fix Hn).
  destruct Hr as [-> | (H1 & H2 & H3)]; [reflexivity |].
  rewrite H1, H2, H3. destruct r; reflexivity.
Qed.

(** *** ASCII strings *)

Lemma is_ascii_upper_char (c : ascii) :
  is_ascii c = true -> is_ascii (upper_char c) = true.
Proof.
  destruct c as [[] [] [] [] [] [] [] []]; intros H;
    solve [reflexivity | discriminate H].
Qed.

Lemma ascii_only_app (a b : str) :
  ascii_only (a ++ b) = ascii_only a && ascii_only b.
Proof. apply forallb_app. Qed.

Lemma ascii_only_upper (s : str) :
  ascii_only s = true -> ascii_only (upper s) = true.
Proof.
  unfold ascii_only, upper. rewrite !forallb_forall. intros H c Hc.
  apply in_map_iff in Hc as [c0 [<- Hc0]]. now apply is_ascii_upper_char, H.
Qed.

Lemma ascii_only_incl (a b : str) :
  incl a b -> ascii_only b = true -> ascii_only a = true.
Proof.
  unfold ascii_only. rewrite !forallb_forall. intros Hi H c Hc. now apply H, Hi.
Qed.

Lemma lstrip_incl (s : str) : incl (lstrip s) s.
Proof.
  destruct (lstrip_split s) as [w E]. intros c Hc.
  rewrite E. apply in_or_app. now right.
Qed.

Lemma strip_incl (s : str) : incl (strip s) s.
Proof.
  unfold strip, rstrip. intros c Hc.
  apply in_rev, lstrip_incl, in_rev in Hc. now apply lstrip_incl.
Qed.

Lemma ascii_only_strip (s : str) :
  ascii_only s = true -> ascii_only (strip s) = true.
Proof. apply ascii_only_incl, strip_incl. Qed.

(** The normaliser maps ASCII strings to ASCII strings. *)
Lemma map_to_yahoo_ascii (s : str) :
  ascii_only s = true -> ascii_only (map_to_yahoo s) = true.
Proof.
  intros Hs. unfold map_to_yahoo.
  pose proof (ascii_only_upper _ (ascii_only_strip _ Hs)) as H1.
  generalize dependent (upper (strip s)). intros s1 H1.
  destruct (is_empty s1); [exact H1 |].
  destruct (endswith s1 (lit ":TSXV")) eqn:E5.
  { apply endswith_iff in E5 as [p ->].
    change (-5)%Z with (- Z.of_nat (length (lit ":TSXV")))%Z.
    rewrite slice_to_drop_suffix by discriminate.
    rewrite ascii_only_app in H1 |- *.
    apply andb_true_iff in H1 as [-> _]. reflexivity. }
  destruct (endswith s1 (lit ":TSX")) eqn:E4.
  { apply endswith_iff in E4 as [p ->].
    change (-4)%Z with (- Z.of_nat (length (lit ":TSX")))%Z.
    rewrite slice_to_drop_suffix by discriminate.
    rewrite ascii_only_app in H1 |- *.
    apply andb_true_iff in H1 as [-> _]. reflexivity. }
  destruct (contains "."%char s1); [exact H1 |].
  rewrite ascii_only_app, H1. reflexivity.
Qed.

(** ** Symbol normaliser *)

Example map_to_yahoo_ex1 : map_to_yahoo (lit " shop:tsx ") = lit "SHOP.TO".
Proof. reflexivity. Qed.

Example map_to_yahoo_ex2 : map_to_yahoo (lit "abc:TSXV") = lit "ABC.V".
Proof. reflexivity. Qed.

Example map_to_yahoo_ex3 : map_to_yahoo (lit "ry") = lit "RY.TO".
Proof. reflexivity. Qed.

Example map_to_yahoo_ex4 : map_to_yahoo (lit "brk.b") = lit "BRK.B".
Proof. reflexivity. Qed.

Example map_to_yahoo_ex5 : map_to_yahoo (lit "   ") = [].
Proof. reflexivity. Qed.

Lemma is_empty_app_r (p q : str) : q <> [] -> is_empty (p ++ q) = false.
Proof. destruct p, q; simpl; congruence. Qed.

(** C2. For an ASCII input: if the trimmed, upper-cased input is [p]
    followed by the qualifier ":TSX" (resp. ":TSXV"), [map_to_yahoo] returns
    [p] followed by ".TO" (resp. ".V"): the qualifier is removed and the
    provider suffix that corresponds to it is appended. *)
Theorem map_to_yahoo_qualifier (symbol p : str) (q : qualifier) :
  ascii_only symbol = true ->
  upper (strip symbol) = p ++ qualifier_text q ->
  map_to_yahoo symbol = p ++ provider_suffix q.
Proof.
  intros _ H. unfold map_to_yahoo. rewrite H.
  rewrite is_empty_app_r by (destruct q; discriminate).
  destruct q; cbv beta iota delta [qualifier_text provider_suffix].
  - assert (E : endswith (p ++ lit ":TSX") (lit ":TSXV") = false).
    { unfold endswith. rewrite rev_app_distr. reflexivity. }
    rewrite E, endswith_app.
    change (-4)%Z with (- Z.of_nat (length (lit ":TSX")))%Z.
    rewrite slice_to_drop_suffix by discriminate. reflexivity.
  - rewrite endswith_app.
    change (-5)%Z with (- Z.of_nat (length (lit ":TSXV")))%Z.
    rewrite slice_to_drop_suffix by discriminate. reflexivity.
Qed.

Lemma map_to_yahoo_qualifier_witness :
  ascii_only (lit " shop:tsx ") = true /\
  upper (strip (lit " shop:tsx ")) = lit "SHOP" ++ qualifier_text TSX /\
  map_to_yahoo (lit " shop:tsx ") = lit "SHOP" ++ provider_suffix TSX.
Proof.
  split; [reflexivity |]. split; [reflexivity |].
  apply (@map_to_yahoo_qualifier (lit " shop:tsx ") (lit "SHOP") TSX);
    reflexivity.
Defined.

(** Every output of the normaliser is a trimmed upper-case string that is
    empty or has a dot and no exchange qualifier at its end. *)
Lemma map_to_yahoo_canonical (s : str) :
  normal (map_to_yahoo s) /\
  (map_to_yahoo s = [] \/
   (endswith (map_to_yahoo s) (lit ":TSXV") = false /\
    endswith (map_to_yahoo s) (lit ":TSX") = false /\
    contains "."%char (map_to_yahoo s) = true)).
Proof.
  unfold map_to_yahoo.
  pose proof (normal_upper_strip s) as Hn.
  generalize dependent (upper (strip s)). intros s1 Hn.
  destruct (is_empty s1) eqn:Ee.
  { destruct s1; [| discriminate]. split; [exact Hn | now left]. }
  destruct (endswith s1 (lit ":TSXV")) eqn:E5.
  { apply endswith_iff in E5 as [p ->].
    change (-5)%Z with (- Z.of_nat (length (lit ":TSXV")))%Z.
    rewrite slice_to_drop_suffix by discriminate.
    split.
    - apply normal_replace_suffix with (q := lit ":TSXV");
        try reflexivity; [exact Hn | discriminate].
    - right. unfold endswith. rewrite rev_app_distr.
      repeat split; try reflexivity. now apply contains_app_r. }
  destruct (endswith s1 (lit ":TSX")) eqn:E4.
  { apply endswith_iff in E4 as [p ->].
    change (-4)%Z with (- Z.of_nat (length (lit ":TSX")))%Z.
    rewrite slice_to_drop_suffix by discriminate.
    split.
    - apply normal_replace_suffix with (q := lit ":TSX");
        try reflexivity; [exact Hn | discriminate].
    - right. unfold endswith. rewrite rev_app_distr.
      repeat split; try reflexivity. now apply contains_app_r. }
  destruct (contains "."%char s1) eqn:Ec.
  { split; [exact Hn | right; auto]. }
  split.
  - apply normal_replace_suffix with (q := []);
      try reflexivity; [now rewrite app_nil_r | discriminate].
  - right. unfold endswith. rewrite rev_app_distr.
    repeat split; try reflexivity. now apply contains_app_r.
Qed.

(** C3. Normalising twice is normalising once: for every ASCII input [s],
    the result of [map_to_yahoo] is again ASCII and
    [map_to_yahoo (map_to_yahoo s) = map_to_yahoo s]; so a canonical symbol
    (an output of the normaliser) is returned unchanged. *)
Theorem map_to_yahoo_idempotent (s : str) :
  ascii_only s = true ->
  ascii_only (map_to_yahoo s) = true /\
  map_to_yahoo (map_to_yahoo s) = map_to_yahoo s.
Proof.
  intros Hs. split; [now apply map_to_yahoo_ascii |].
  destruct (map_to_yahoo_canonical s) as [Hn Hr].
  now apply map_to_yahoo_fixed.
Qed.

Lemma map_to_yahoo_idempotent_witness :
  ascii_only (lit " shop:tsx ") = true /\
  map_to_yahoo (map_to_yahoo (lit " shop:tsx ")) = map_to_yahoo (lit " shop:tsx ").
Proof.
  split; [reflexivity |].
  exact (proj2 (@map_to_yahoo_idempotent (lit " shop:tsx ") eq_refl)).
Defined.

(** ** Sorting *)

Section SortingFacts.
Variable A : Type.
Variable leb : A -> A -> bool.

Lemma insert_perm (x : A) (l : list A) : Permutation (insert leb x l) (x :: l).
Proof.
  induction l as [|y l IH]; simpl; [reflexivity |].
  destruct (leb x y); [reflexivity |].
  rewrite IH. apply perm_swap.
Qed.

Lemma sort_by_perm (l : list A) : Permutation (sort_by leb l) l.
Proof.
  induction l as [|x l IH]; simpl; [reflexivity |].
  rewrite insert_perm. now constructor.
Qed.

Lemma sort_by_length (l : list A) : length (sort_by leb l) = length l.
Proof. apply Permutation_length, sort_by_perm. Qed.

Lemma sort_by_In (x : A) (l : list A) : In x (sort_by leb l) <-> In x l.
Proof.
  split; apply Permutation_in;
    [apply sort_by_perm | symmetry; apply sort_by_perm].
Qed.

Hypothesis leb_total : forall a b, leb a b = true \/ leb b a = true.

Lemma insert_sorted (x : A) (l : list A) :
  Sorted (fun a b => leb a b = true) l ->
  Sorted (fun a b => leb a b = true) (insert leb x l).
Proof.
  induction 1 as [|y l Hs IH Hd]; simpl.
  - repeat constructor.
  - destruct (leb x y) eqn:E.
    + constructor; [now constructor | now constructor].
    + constructor; [exact IH |].
      assert (Hyx : leb y x = true).
      { destruct (leb_total x y) as [H | H]; [congruence | exact H]. }
      destruct Hd as [|z l Hz]; simpl.
      * now constructor.
      * destruct (leb x z); now constructor.
Qed.

Lemma sort_by_sorted (l : list A) :
  Sorted (fun a b => leb a b = true) (sort_by leb l).
Proof.
  induction l as [|x l IH]; simpl; [constructor | now apply insert_sorted].
Qed.
End SortingFacts.

Lemma str_leb_total (a b : str) : str_leb a b = true \/ str_leb b a = true.
Proof.
  revert b; induction a as [|x a IH]; intros [|y b]; simpl; auto.
  destruct (N.ltb_spec (code x) (code y)), (N.ltb_spec (code y) (code x));
    auto; lia.
Qed.

Lemma str_leb_refl (a : str) : str_leb a a = true.
Proof. destruct (str_leb_total a a); assumption. Qed.

Lemma code_inj (x y : ascii) : code x = code y -> x = y.
Proof.
  unfold code. intros H.
  rewrite <- (ascii_N_embedding x), <- (ascii_N_embedding y). now rewrite H.
Qed.

Lemma str_leb_antisym (a b : str) :
  str_leb a b = true -> str_leb b a = true -> a = b.
Proof.
  revert b; induction a as [|x a IH]; intros [|y b]; simpl;
    try discriminate; auto.
  destruct (N.ltb_spec (code x) (code y)), (N.ltb_spec (code y) (code x));
    try discriminate; try lia.
  intros H1 H2. f_equal; [apply code_inj; lia | now apply IH].
Qed.

Lemma str_leb_trans (a b c : str) :
  str_leb a b = true -> str_leb b c = true -> str_leb a c = true.
Proof.
  revert b c; induction a as [|x a IH]; intros [|y b] [|z c]; simpl;
    try discriminate; auto.
  destruct (N.ltb_spec (code x) (code y)), (N.ltb_spec (code y) (code z)),
    (N.ltb_spec (code x) (code z)), (N.ltb_spec (code y) (code x)),
    (N.ltb_spec (code z) (code y)), (N.ltb_spec (code z) (code x));
    try discriminate; try lia; auto.
  apply IH.
Qed.

Lemma sorted_Sorted (l : list str) : Sorted str_le (sorted l).
Proof. apply sort_by_sorted, str_leb_total. Qed.

Lemma sorted_length (l : list str) : length (sorted l) = length l.
Proof. apply sort_by_length. Qed.

Lemma sorted_In (x : str) (l : list str) : In x (sorted l) <-> In x l.
Proof. apply sort_by_In. Qed.

Lemma mem_str_In (x : str) (l : list str) : mem str_eqb x l = true <-> In x l.
Proof.
  unfold mem. rewrite existsb_exists. split.
  - intros [y [Hy E]]. apply str_eqb_eq in E. now subst.
  - intros H. exists x. split; [exact H | apply str_eqb_refl].
Qed.

(** ** Slices *)

Lemma slice_length_le (A : Type) (l : list A) (lo hi : Z) :
  (0 <= lo)%Z -> (lo <= hi)%Z ->
  (Z.of_nat (length (slice l lo hi)) <= hi - lo)%Z.
Proof.
  intros H0 H1. unfold slice, norm_index.
  destruct (Z.ltb_spec lo 0); [lia |].
  destruct (Z.ltb_spec hi 0); [lia |].
  rewrite length_firstn. lia.
Qed.

Lemma slice_nil (A : Type) (lo hi : Z) : slice (@nil A) lo hi = [].
Proof. unfold slice. rewrite skipn_nil. apply firstn_nil. Qed.

(** ** Page count *)

Lemma ceil_div_bounds (n d : Z) :
  (0 < d)%Z -> ((ceil_div n d - 1) * d < n <= ceil_div n d * d)%Z.
Proof.
  intros Hd. unfold ceil_div.
  pose proof (Z.div_mod (- n) d ltac:(lia)) as E.
  pose proof (Z.mod_pos_bound (- n) d Hd) as B.
  nia.
Qed.

Lemma ceil_div_pos (n d : Z) : (0 < d)%Z -> (1 <= n)%Z -> (1 <= ceil_div n d)%Z.
Proof.
  intros Hd Hn. pose proof (ceil_div_bounds n Hd). nia.
Qed.

Lemma total_pages_ge_1 (all_tickers : list str) (always_keep : str)
    (page_size : Z) :
  (1 <= total_pages all_tickers always_keep page_size)%Z.
Proof. unfold total_pages. lia. Qed.

(** C1 (amended). With the pinned ticker present, [N] other tickers and
    page size [P >= 2], the page count is [max 1 (ceil (N / (P-1)))]: it is
    the ceiling of [N / (P-1)], the least [k] with [N <= k * (P-1)], as soon
    as one other ticker remains, and it is 1 (not 0) when the pinned ticker is
    the only one left. *)
Theorem total_pages_pinned (all_tickers : list str) (always_keep : str)
    (page_size : Z) :
  has_keep all_tickers always_keep = true ->
  (2 <= page_size)%Z ->
  let N := Z.of_nat (length (others all_tickers always_keep)) in
  let tp := total_pages all_tickers always_keep page_size in
  tp = Z.max 1 (ceil_div N (page_size - 1)) /\
  ((1 <= N)%Z ->
   tp = ceil_div N (page_size - 1) /\
   ((tp - 1) * (page_size - 1) < N <= tp * (page_size - 1))%Z) /\
  (N = 0%Z -> tp = 1%Z).
Proof.
  intros Hk HP N tp. subst tp. unfold total_pages, per_page. rewrite Hk.
  fold N. replace (Z.max 1 (page_size - 1)) with (page_size - 1)%Z by lia.
  split; [reflexivity |]. split.
  - intros HN.
    pose proof (@ceil_div_pos N (page_size - 1) ltac:(lia) HN) as Hc.
    replace (Z.max 1 (ceil_div N (page_size - 1)))
      with (ceil_div N (page_size - 1)) by lia.
    split; [reflexivity | apply ceil_div_bounds; lia].
  - intros ->. reflexivity.
Qed.

Lemma total_pages_pinned_witness :
  has_keep [lit "A"; lit "B"; lit "C"; lit "D"; lit "E"] (lit "A") = true /\
  (2 <= 3)%Z /\
  total_pages [lit "A"; lit "B"; lit "C"; lit "D"; lit "E"] (lit "A") 3 = 2%Z.
Proof.
  split; [reflexivity |]. split; [lia |].
  destruct (@total_pages_pinned
              [lit "A"; lit "B"; lit "C"; lit "D"; lit "E"] (lit "A") 3
              eq_refl ltac:(lia)) as [E _].
  rewrite E. reflexivity.
Defined.

(** C1 as stated fails when the pinned ticker is the only ticker left:
    there are [N = 0] other tickers, [ceil (0 / 9) = 0], and the page count
    is 1. *)
Lemma total_pages_pinned_counterexample :
  has_keep [lit "CNR.TO"] (lit "CNR.TO") = true /\
  total_pages [lit "CNR.TO"] (lit "CNR.TO") 10 = 1%Z /\
  ceil_div (Z.of_nat (length (others [lit "CNR.TO"] (lit "CNR.TO")))) (10 - 1)
    = 0%Z /\
  total_pages [lit "CNR.TO"] (lit "CNR.TO") 10 <>
  ceil_div (Z.of_nat (length (others [lit "CNR.TO"] (lit "CNR.TO")))) (10 - 1).
Proof. repeat split; try reflexivity. discriminate. Qed.

(** ** Page selection *)

Lemma per_page_nonneg (all_tickers : list str) (always_keep : str)
    (page_size : Z) :
  (1 <= page_size)%Z -> (0 <= per_page all_tickers always_keep page_size)%Z.
Proof. unfold per_page. destruct (has_keep _ _); lia. Qed.

(** The example of the specification: five tickers, [A] pinned, page size 3. *)
Example select_page_spec_example :
  let ts := [lit "A"; lit "B"; lit "C"; lit "D"; lit "E"] in
  total_pages ts (lit "A") 3 = 2%Z /\
  select_page ts (lit "A") 3 1 = [lit "A"; lit "B"; lit "C"] /\
  select_page ts (lit "A") 3 2 = [lit "A"; lit "D"; lit "E"].
Proof. repeat split. Qed.

(** C9. For a page size of at least 1 and every page index, the selection
    has at most [page_size] tickers, and if the pinned ticker is among the
    filtered tickers it is in the selection. *)
Theorem select_page_bounded_pinned (all_tickers : list str)
    (always_keep : str) (page_size page : Z) :
  (1 <= page_size)%Z ->
  (Z.of_nat (length (select_page all_tickers always_keep page_size page))
   <= page_size)%Z /\
  (In always_keep all_tickers ->
   In always_keep (select_page all_tickers always_keep page_size page)).
Proof.
  intros HP. unfold select_page.
  pose proof (per_page_nonneg all_tickers always_keep HP) as Hpp.
  pose proof (total_pages_ge_1 all_tickers always_keep page_size) as Htp.
  set (pg := Z.max 1 (Z.min page (total_pages all_tickers always_keep page_size))).
  set (pp := per_page all_tickers always_keep page_size) in *.
  assert (Hlen :
    (Z.of_nat (length (slice (others all_tickers always_keep)
                             ((pg - 1) * pp) ((pg - 1) * pp + pp))) <= pp)%Z).
  { pose proof (@slice_length_le _ (others all_tickers always_keep)
                  ((pg - 1) * pp) ((pg - 1) * pp + pp)
                  ltac:(subst pg; nia) ltac:(lia)).
    lia. }
  split.
  - rewrite sorted_length. subst pp. unfold per_page in *.
    destruct (has_keep all_tickers always_keep); simpl length; lia.
  - intros Hin. apply sorted_In.
    apply mem_str_In in Hin. fold (has_keep all_tickers always_keep) in Hin.
    rewrite Hin. now left.
Qed.

Lemma select_page_bounded_pinned_witness :
  (1 <= 3)%Z /\
  (Z.of_nat (length (select_page
                       [lit "A"; lit "B"; lit "C"; lit "D"; lit "E"]
                       (lit "A") 3 2)) <= 3)%Z /\
  In (lit "A")
     (select_page [lit "A"; lit "B"; lit "C"; lit "D"; lit "E"] (lit "A") 3 2).
Proof.
  split; [lia |].
  destruct (@select_page_bounded_pinned
              [lit "A"; lit "B"; lit "C"; lit "D"; lit "E"] (lit "A") 3 2
              ltac:(lia)) as [Hl Hi].
  split; [exact Hl | apply Hi; simpl; auto].
Defined.

(** C10. [select_page] is defined for every integer page: the page is first
    clamped into [1 .. total_pages], the result is the sorted list made of
    the pinned ticker (if present) and the slice of the other tickers for the
    clamped page, and for an empty ticker list it is the empty list.  Only
    slices are taken, which are defined for every pair of bounds. *)
Theorem select_page_total (all_tickers : list str) (always_keep : str)
    (page_size page : Z) :
  let tp := total_pages all_tickers always_keep page_size in
  let pp := per_page all_tickers always_keep page_size in
  let clamped := Z.max 1 (Z.min page tp) in
  (1 <= clamped <= tp)%Z /\
  select_page all_tickers always_keep page_size page =
  select_page all_tickers always_keep page_size clamped /\
  select_page all_tickers always_keep page_size page =
  sorted ((if has_keep all_tickers always_keep then [always_keep] else []) ++
          slice (others all_tickers always_keep)
                ((clamped - 1) * pp) ((clamped - 1) * pp + pp)) /\
  Sorted str_le (select_page all_tickers always_keep page_size page) /\
  select_page [] always_keep page_size page = [].
Proof.
  intros tp pp clamped.
  pose proof (total_pages_ge_1 all_tickers always_keep page_size) as Htp.
  fold tp in Htp.
  split; [subst clamped; lia |].
  split.
  { unfold select_page. fold tp.
    replace (Z.max 1 (Z.min clamped tp)) with clamped by (subst clamped; lia).
    reflexivity. }
  split.
  { unfold select_page. fold tp. fold clamped. fold pp.
    destruct (has_keep all_tickers always_keep); reflexivity. }
  split; [apply sorted_Sorted |].
  unfold select_page. simpl. rewrite slice_nil. reflexivity.
Qed.

(** ** Page counter *)

Lemma controls_in_range (total : Z) (c : clicks) (page : Z) :
  (1 <= total)%Z -> (1 <= page <= total)%Z ->
  (1 <= controls total c page <= total)%Z.
Proof.
  intros Ht Hp. unfold controls.
  destruct (prev_clicked c), (next_clicked c); lia.
Qed.

Lemma controls_next_last (total : Z) :
  controls total click_next total = total.
Proof. unfold controls; simpl. lia. Qed.

Lemma controls_prev_first (total : Z) : controls total click_prev 1 = 1%Z.
Proof. reflexivity. Qed.

Lemma controls_next_step (total page : Z) :
  (page < total)%Z -> controls total click_next page = (page + 1)%Z.
Proof. unfold controls; simpl. lia. Qed.

Lemma controls_prev_step (total page : Z) :
  (1 < page)%Z -> controls total click_prev page = (page - 1)%Z.
Proof. unfold controls; simpl. lia. Qed.

(** A counter never drops below 1, whatever the runs are. *)
Lemma controls_ge_1 (total : Z) (c : clicks) (page : Z) :
  (1 <= total)%Z -> (1 <= page)%Z -> (1 <= controls total c page)%Z.
Proof.
  intros Ht Hp. unfold controls.
  destruct (prev_clicked c), (next_clicked c); lia.
Qed.

(** As long as every run computes the same page count [T], the counter is
    within [1 .. T] after every run. *)
Lemma runs_in_range_fixed_total (T : Z)
    (inputs : list (list str * settings * clicks)) :
  Forall (fun i =>
            total_pages (fst (fst i))
                        (strip (upper (always_keep_input (snd (fst i)))))
                        (page_size_input (snd (fst i))) = T) inputs ->
  forall st : session,
    (1 <= T)%Z ->
    (1 <= match st with Some p => p | None => 1%Z end <= T)%Z ->
    (1 <= match runs inputs st with Some p => p | None => 1%Z end <= T)%Z.
Proof.
  induction 1 as [|[[ts cfg] c] inputs Hx _ IH]; intros st HT Hst; simpl.
  - exact Hst.
  - apply IH; [exact HT |]. simpl in Hx. simpl. rewrite Hx.
    now apply controls_in_range.
Qed.

(** Navigation under an unchanged page count: as long as every run computes
    the same page count [T], the counter stays within [1 .. T]; Next on the
    last page and Prev on page 1 leave it where it is, every other click
    moves it by exactly one. *)
Lemma page_counter_in_range (T : Z)
    (inputs : list (list str * settings * clicks)) :
  (1 <= T)%Z ->
  Forall (fun i =>
            total_pages (fst (fst i))
                        (strip (upper (always_keep_input (snd (fst i)))))
                        (page_size_input (snd (fst i))) = T) inputs ->
  (1 <= match runs inputs None with Some p => p | None => 1%Z end <= T)%Z /\
  controls T click_next T = T /\
  controls T click_prev 1 = 1%Z /\
  (forall page, (1 <= page < T)%Z ->
                controls T click_next page = (page + 1)%Z) /\
  (forall page, (1 < page <= T)%Z ->
                controls T click_prev page = (page - 1)%Z) /\
  (forall page, controls T no_click page = page).
Proof.
  intros HT Hall. split.
  { apply (@runs_in_range_fixed_total T inputs Hall None HT). simpl. lia. }
  split; [apply controls_next_last |].
  split; [apply controls_prev_first |].
  split; [intros page Hp; apply controls_next_step; lia |].
  split; [intros page Hp; apply controls_prev_step; lia |].
  reflexivity.
Qed.

(** C6. The code does not keep the stored counter within
    [1 .. total_pages]: when the page count shrinks between two runs, only a
    click on Next and [select_page] clamp to it.  Eleven tickers at 5 per
    page make 3 pages, and two clicks on Next lead to page 3.  With 25 per
    page there is 1 page: a run without a click keeps the counter at 3 and
    prints the label "Page 3/1", a click on Prev stores page 2 and prints
    "Page 2/1", while [select_page] shows page 1 in both runs. *)
Theorem page_counter_outside_range :
  total_pages sample_tickers (lit "CNR.TO") 5 = 3%Z /\
  total_pages sample_tickers (lit "CNR.TO") 25 = 1%Z /\
  runs [(sample_tickers, mkSettings (lit "CNR.TO") 5, click_next);
        (sample_tickers, mkSettings (lit "CNR.TO") 5, click_next)] None
    = Some 3%Z /\
  run_pagination sample_tickers (mkSettings (lit "CNR.TO") 25) no_click
                 (Some 3%Z)
    = (Some 3%Z, mkView (3%Z, 1%Z) sample_tickers) /\
  run_pagination sample_tickers (mkSettings (lit "CNR.TO") 25) click_prev
                 (Some 3%Z)
    = (Some 2%Z, mkView (2%Z, 1%Z) sample_tickers) /\
  run_pagination sample_tickers (mkSettings (lit "CNR.TO") 25) click_next
                 (Some 3%Z)
    = (Some 1%Z, mkView (1%Z, 1%Z) sample_tickers) /\
  ~ (1 <= 3 <= total_pages sample_tickers (lit "CNR.TO") 25)%Z.
Proof.
  repeat split.
  change (total_pages sample_tickers (lit "CNR.TO") 25) with 1%Z. lia.
Qed.

(** ** Price downloader *)

(** C7. Whatever the provider and the date window, an empty ticker
    collection gives the empty table [pd.DataFrame()]; the provider is not
    consulted. *)
Theorem download_prices_no_tickers (yf_download : provider) (start end_ : Z) :
  download_prices yf_download [] start end_ = Ok empty_frame /\
  is_empty_frame empty_frame = true /\
  columns empty_frame = [] /\ rows empty_frame = [].
Proof. repeat split. Qed.

(** ** Ticker list loader *)

(** A missing cell of the symbol column is listed as "NAN.TO" with the
    [astype(str)] of pandas 2 and makes the loader fail with that of
    pandas 3. *)
Example load_ticker_list_sample :
  load_ticker_list true sample_fs (Some (lit "tickers.csv")) =
  mkOutcome [] (Ok [lit "NAN.TO"; lit "RY.TO"; lit "SHOP.TO"]) /\
  load_ticker_list false sample_fs (Some (lit "tickers.csv")) =
  mkOutcome [] (Raise AttributeError).
Proof. split; reflexivity. Qed.





(** ** Reshaper *)

Example tidy_from_wide_sample (check : bool) :
  tidy_from_wide check sample_wide = Ok sample_tidy.
Proof. destruct check; reflexivity. Qed.

Lemma combine_fst_snd (A B : Type) (l : list (A * B)) :
  combine (map fst l) (map snd l) = l.
Proof.
  induction l as [|[a b] l IH]; simpl; [reflexivity | now rewrite IH].
Qed.

Lemma filter_idem (A : Type) (f : A -> bool) (l : list A) :
  filter f (filter f l) = filter f l.
Proof.
  induction l as [|x l IH]; simpl; [reflexivity |].
  destruct (f x) eqn:E; simpl; [rewrite E; now f_equal | exact IH].
Qed.

Lemma melt_shape (check : bool) (frame t : DataFrame) (i v n : str) :
  melt check frame i v n = Ok t ->
  columns t = [i; v; n] /\ idx_name (index t) = None /\
  idx_dtype (index t) = Integer.
Proof.
  unfold melt.
  destruct (check && mem str_eqb n (columns frame)); [discriminate |].
  destruct (index_of str_eqb i (columns frame)); [| discriminate].
  intros E. inversion E; subst; clear E. simpl. auto.
Qed.

Lemma dropna_subset_inv (df t : DataFrame) (n : str) :
  dropna_subset df n = Ok t ->
  exists k,
    index_of str_eqb n (columns df) = Some k /\
    t = mkDataFrame
          (mkIndex (idx_name (index df)) (idx_dtype (index df))
             (map fst (filter (fun p => negb (isna (cell k (snd p))))
                              (combine (labels (index df)) (rows df)))))
          (columns df)
          (map snd (filter (fun p => negb (isna (cell k (snd p))))
                           (combine (labels (index df)) (rows df)))).
Proof.
  unfold dropna_subset.
  destruct (index_of str_eqb n (columns df)) as [k|]; [| discriminate].
  intros E. inversion E; subst. exists k. split; reflexivity.
Qed.

(** C4 (amended). The tidy table the reshaper returns has the columns
    Date, Ticker, Adj Close and no missing price, and it is a fixed point of
    the reshaper's last step: dropping the rows without a price again
    returns the same table.  It is not a fixed point of the reshaper as a
    whole: with the column check of pandas 2, reshaping a tidy table raises
    [ValueError], because the table already has a column "Adj Close". *)
Theorem tidy_from_wide_stable (check : bool) (adj t : DataFrame) :
  tidy_from_wide check adj = Ok t ->
  columns t = tidy_columns /\
  Forall (fun r => isna (cell 2 r) = false) (rows t) /\
  dropna_subset t adj_close = Ok t /\
  tidy_from_wide true t = Raise ValueError.
Proof.
  unfold tidy_from_wide, bind.
  destruct (reset_index adj) as [t1|]; [| discriminate].
  destruct (melt check t1 (lit "Date") (lit "Ticker") adj_close)
    as [t2|] eqn:Em; [| discriminate].
  apply melt_shape in Em as (Hc & Hn & Hd).
  intros Ht. apply dropna_subset_inv in Ht as (k & Hk & ->).
  rewrite Hc in Hk |- *. rewrite Hn, Hd.
  assert (k = 2%nat) by (vm_compute in Hk; congruence). subst k. clear Hk.
  set (kept := filter (fun p : Z * list value => negb (isna (cell 2 (snd p))))
                      (combine (labels (index t2)) (rows t2))).
  split; [reflexivity |]. split; [| split].
  - simpl. apply Forall_forall. intros r Hr.
    apply in_map_iff in Hr as [p [<- Hp]].
    apply filter_In in Hp as [_ Hp]. now apply negb_true_iff.
  - unfold dropna_subset. simpl columns.
    change (index_of str_eqb adj_close [lit "Date"; lit "Ticker"; adj_close])
      with (Some 2%nat).
    simpl. rewrite combine_fst_snd. unfold kept. rewrite filter_idem.
    reflexivity.
  - reflexivity.
Qed.

Lemma tidy_from_wide_stable_witness :
  tidy_from_wide true sample_wide = Ok sample_tidy /\
  dropna_subset sample_tidy adj_close = Ok sample_tidy /\
  tidy_from_wide true sample_tidy = Raise ValueError.
Proof.
  assert (H : tidy_from_wide true sample_wide = Ok sample_tidy)
    by reflexivity.
  split; [exact H |].
  destruct (tidy_from_wide_stable true sample_wide H) as (_ & _ & H1 & H2).
  split; [exact H1 | exact H2].
Defined.

(** C4 as stated fails: reshaping the tidy form of the sample table does
    not return it.  With the column check of pandas 2 the second reshaping
    raises; without it (pandas 1) it returns nine rows, one per cell of the
    columns index, Ticker and Adj Close, instead of the three rows it was
    given. *)
Lemma tidy_from_wide_twice_counterexample :
  tidy_from_wide true sample_wide = Ok sample_tidy /\
  tidy_from_wide true sample_tidy <> Ok sample_tidy /\
  tidy_from_wide false sample_wide = Ok sample_tidy /\
  tidy_from_wide false sample_tidy <> Ok sample_tidy /\
  match tidy_from_wide false sample_tidy with
  | Ok t => length (rows t)
  | Raise _ => 0%nat
  end = 9%nat.
Proof.
  split; [reflexivity |]. split; [discriminate |].
  split; [reflexivity |]. split.
  - intros H. apply (f_equal (fun r => match r with
                                       | Ok t => length (rows t)
                                       | Raise _ => 0%nat
                                       end)) in H.
    vm_compute in H. discriminate.
  - reflexivity.
Qed.

Lemma numeric_cell (j : nat) (r : list value) :
  forallb numeric r = true -> numeric (cell j r) = true.
Proof.
  intros H. unfold cell. destruct (nth_in_or_default j r NaN) as [Hin | ->].
  - rewrite forallb_forall in H. now apply H.
  - reflexivity.
Qed.

(** The reshaper turns a wide price table into a tidy price table. *)
Lemma tidy_from_wide_is_tidy (check : bool) (adj t : DataFrame) :
  is_wide adj -> tidy_from_wide check adj = Ok t -> is_tidy t.
Proof.
  intros (Hname & Hty & Hnum).
  unfold tidy_from_wide, bind, reset_index. rewrite Hname, Hty.
  destruct (mem str_eqb (lit "Date") (columns adj)); [discriminate |].
  unfold melt. cbn [columns rows index].
  destruct (check && _); [discriminate |].
  change (index_of str_eqb (lit "Date") (lit "Date" :: columns adj))
    with (Some 0%nat).
  cbv beta iota. unfold dropna_subset. cbn [columns rows index].
  change (index_of str_eqb adj_close [lit "Date"; lit "Ticker"; adj_close])
    with (Some 2%nat).
  cbv beta iota. cbn [idx_name idx_dtype labels RangeIndex].
  intros E. inversion E; subst; clear E.
  split; [reflexivity |]. split; [| cbn; now rewrite !length_map].
  cbn [rows]. apply forallb_forall. intros r Hr.
  apply in_map_iff in Hr as [[lbl r'] [<- Hp]].
  apply filter_In in Hp as [Hp Hna].
  apply in_combine_r, in_flat_map in Hp as [j [Hj Hp]].
  apply in_map_iff in Hp as [r1 [Er Hr1]].
  apply in_map_iff in Hr1 as [[l r0] [<- Hr0]].
  apply in_combine_r in Hr0.
  unfold positions_except in Hj. apply filter_In in Hj as [_ Hj].
  destruct j as [|j]; [discriminate |].
  rewrite <- Er in Hna |- *. cbn in Hna |- *.
  rewrite forallb_forall in Hnum.
  pose proof (@numeric_cell j r0 (Hnum _ Hr0)) as Hc.
  unfold cell in Hc.
  destruct (nth j r0 NaN); simpl in *; try discriminate; reflexivity.
Qed.

(** ** Filter *)

Example tidy_filtered_sample :
  to_remove sample_tidy 100 = Ok [Str (lit "RY.TO")] /\
  option_map rows
    (match tidy_filtered sample_tidy 100 with
     | Ok t => Some t
     | Raise _ => None
     end)
  = Some [[Date 19001; Str (lit "TD.TO"); Num (80 # 1)]].
Proof. split; reflexivity. Qed.

Lemma Qgtb_lt (a b : Q) : Qgtb a b = true <-> (b < a)%Q.
Proof.
  unfold Qgtb. rewrite negb_true_iff. split.
  - intros H. apply Qnot_le_lt. intros Hle.
    apply Qle_bool_iff in Hle. congruence.
  - intros H. destruct (Qle_bool a b) eqn:E; [| reflexivity].
    apply Qle_bool_iff in E. exfalso. exact (Qlt_not_le _ _ H E).
Qed.

(** The maximum of a group of present prices is one of them and bounds all
    of them. *)
Lemma group_max_spec (qs : list Q) :
  match group_max (map Some qs) with
  | None => qs = []
  | Some m => In m qs /\ Forall (fun q => (q <= m)%Q) qs
  end.
Proof.
  induction qs as [|x qs IH]; simpl; [reflexivity |].
  destruct (group_max (map Some qs)) as [y|].
  - destruct IH as [Hin Hall]. destruct (Qle_bool x y) eqn:E.
    + apply Qle_bool_iff in E. split; [now right | now constructor].
    + assert (Hyx : (y <= x)%Q).
      { apply Qlt_le_weak, Qgtb_lt. unfold Qgtb. now rewrite E. }
      split; [now left |]. constructor; [apply Qle_refl |].
      eapply Forall_impl; [| exact Hall].
      intros q Hq. simpl in Hq. eapply Qle_trans; eassumption.
  - subst qs. split; [now left |]. constructor; [apply Qle_refl | constructor].
Qed.

Lemma value_eqb_Str_r (v : value) (t : str) :
  value_eqb v (Str t) = true <-> v = Str t.
Proof.
  destruct v; simpl; try (split; [discriminate | congruence]).
  rewrite str_eqb_eq. split; congruence.
Qed.

Lemma value_eqb_Str_l (v : value) (t : str) :
  value_eqb (Str t) v = true <-> v = Str t.
Proof.
  destruct v; simpl; try (split; [discriminate | congruence]).
  rewrite str_eqb_eq. split; congruence.
Qed.

Lemma mem_value_Str (t : str) (l : list value) :
  mem value_eqb (Str t) l = true <-> In (Str t) l.
Proof.
  unfold mem. rewrite existsb_exists. split.
  - intros [y [Hy E]]. apply value_eqb_Str_l in E. now subst.
  - intros H. exists (Str t). split; [exact H | apply str_eqb_refl].
Qed.

Lemma unique_incl (A : Type) (eqb : A -> A -> bool) (x : A) (l : list A) :
  In x (unique eqb l) -> In x l.
Proof.
  induction l as [|y l IH]; simpl; [tauto |].
  rewrite filter_In. tauto.
Qed.

Lemma unique_In_Str (t : str) (l : list value) :
  In (Str t) (unique value_eqb l) <-> In (Str t) l.
Proof.
  induction l as [|x l IH]; simpl; [tauto |].
  rewrite filter_In, IH, negb_true_iff. split.
  - intros [H | [H _]]; auto.
  - intros [H | H]; [now left |].
    destruct (value_eqb x (Str t)) eqn:E; [| now right].
    left. now apply value_eqb_Str_r.
Qed.

(** *** The typed view of a tidy table *)

Lemma tidy_rows_view (rs : list (list value)) :
  forallb tidy_row rs = true -> exists trs, rs = map mk_row trs.
Proof.
  induction rs as [|r rs IH]; simpl.
  - intros _. exists []; reflexivity.
  - rewrite andb_true_iff. intros [Hr Hrs].
    destruct (IH Hrs) as [trs ->].
    destruct r as [|[| | |d|] [|[| |t| |] [|[|q| | |] [|? ?]]]];
      try discriminate.
    exists ((d, t, q) :: trs). reflexivity.
Qed.

Lemma mapM_to_float_prices (trs : list (Z * str * Q)) :
  mapM to_float (map (fun x => Num (snd x)) trs) =
  Ok (map (fun x => Some (snd x)) trs).
Proof.
  induction trs as [|x trs IH]; simpl; [reflexivity | now rewrite IH].
Qed.

Lemma combine_map (A B C : Type) (f : A -> B) (g : A -> C) (l : list A) :
  combine (map f l) (map g l) = map (fun x => (f x, g x)) l.
Proof.
  induction l as [|x l IH]; simpl; [reflexivity | now rewrite IH].
Qed.

Lemma group_of_ticker (trs : list (Z * str * Q)) (t : str) :
  map snd
      (filter (fun p : value * option Q => value_eqb (fst p) (Str t))
              (map (fun x => (Str (snd (fst x)), Some (snd x))) trs))
  = map Some (prices_of trs t).
Proof.
  unfold prices_of.
  induction trs as [|x trs IH]; simpl; [reflexivity |].
  destruct (str_eqb (snd (fst x)) t); simpl; now rewrite IH.
Qed.

Lemma filter_notna_tickers (trs : list (Z * str * Q)) :
  filter (fun k => negb (isna k)) (map (fun x => Str (snd (fst x))) trs)
  = map (fun x => Str (snd (fst x))) trs.
Proof.
  induction trs as [|x trs IH]; simpl; [reflexivity | now rewrite IH].
Qed.

Lemma map_fst_filter_graph (A B : Type) (g : A -> B) (P : A * B -> bool)
    (l : list A) :
  map fst (filter P (map (fun k => (k, g k)) l))
  = filter (fun k => P (k, g k)) l.
Proof.
  induction l as [|x l IH]; simpl; [reflexivity |].
  destruct (P (x, g x)); simpl; now rewrite IH.
Qed.

Lemma observed_prices_of (tidy : DataFrame) (trs : list (Z * str * Q))
    (t : str) (q : Q) :
  rows tidy = map mk_row trs ->
  observed tidy t q <-> In q (prices_of trs t).
Proof.
  intros Hr. unfold observed, prices_of. rewrite Hr. split.
  - intros [d Hd]. apply in_map_iff in Hd as [[[d' t'] q'] [E Hin]].
    unfold mk_row in E; simpl in E. inversion E; subst.
    apply in_map_iff. exists (d, t, q). split; [reflexivity |].
    apply filter_In. split; [exact Hin | apply str_eqb_refl].
  - intros H. apply in_map_iff in H as [[[d t'] q'] [E Hin]].
    simpl in E; subst q'. apply filter_In in Hin as [Hin Ht].
    simpl in Ht. apply str_eqb_eq in Ht; subst t'.
    exists d. apply in_map_iff. exists (d, t, q). split; [reflexivity | exact Hin].
Qed.

Lemma ticker_key_In (trs : list (Z * str * Q)) (t : str) :
  In (Str t) (map (fun x => Str (snd (fst x))) trs) <-> prices_of trs t <> [].
Proof.
  unfold prices_of. induction trs as [|x trs IH]; simpl; [tauto |].
  destruct (str_eqb (snd (fst x)) t) eqn:E; simpl.
  - apply str_eqb_eq in E. subst t. split; [discriminate | now left].
  - apply str_eqb_neq in E. rewrite <- IH. split.
    + intros [H | H]; [congruence | exact H].
    + intros H; now right.
Qed.

Lemma filter_zip_rows (A : Type) (c : list value -> A) (f : A -> bool)
    (rs : list (list value)) (ls : list Z) :
  length ls = length rs ->
  map (fun p => snd (snd p))
      (filter (fun p : A * (Z * list value) => f (fst p))
              (combine (map c rs) (combine ls rs)))
  = filter (fun r => f (c r)) rs.
Proof.
  revert ls; induction rs as [|r rs IH]; intros [|l ls] H;
    simpl in *; try discriminate; try reflexivity.
  destruct (f (c r)); simpl; rewrite IH by lia; reflexivity.
Qed.

(** The tickers [to_remove] lists for a tidy table. *)
Lemma to_remove_tidy (tidy : DataFrame) (filter_max : Z)
    (trs : list (Z * str * Q)) :
  columns tidy = tidy_columns ->
  rows tidy = map mk_row trs ->
  to_remove tidy filter_max =
  Ok (filter (fun k =>
                match k with
                | Str t =>
                    match group_max (map Some (prices_of trs t)) with
                    | Some x => Qgtb x (inject_Z filter_max)
                    | None => false
                    end
                | _ => false
                end)
             (unique value_eqb (map (fun x => Str (snd (fst x))) trs))).
Proof.
  intros Hc Hr. unfold to_remove, max_by_ticker, column, bind.
  rewrite Hc, Hr.
  change (index_of str_eqb (lit "Ticker") tidy_columns) with (Some 1%nat).
  change (index_of str_eqb adj_close tidy_columns) with (Some 2%nat).
  cbv beta iota. rewrite !map_map. unfold mk_row, cell. simpl nth.
  rewrite mapM_to_float_prices. cbv beta iota. rewrite filter_notna_tickers, combine_map.
  rewrite map_fst_filter_graph. f_equal.
  apply filter_ext_in. intros k Hk. simpl.
  apply unique_incl, in_map_iff in Hk as [x [<- _]].
  now rewrite group_of_ticker.
Qed.

(** C5. For every tidy price table and every threshold, [to_remove] lists
    exactly the tickers whose maximum observed price is strictly greater
    than the threshold, and [tidy_filtered] keeps, in order, every row of
    every other ticker and no row of a listed one. *)
Theorem tidy_filtered_exact (tidy : DataFrame) (filter_max : Z) :
  is_tidy tidy ->
  exists gone tf,
    to_remove tidy filter_max = Ok gone /\
    tidy_filtered tidy filter_max = Ok tf /\
    (forall t, In (Str t) gone <->
               exists m, is_max_price tidy t m /\ (inject_Z filter_max < m)%Q) /\
    columns tf = columns tidy /\
    rows tf =
      filter (fun r => negb (mem value_eqb (cell 1 r) gone)) (rows tidy) /\
    (forall r, In r (rows tf) <-> In r (rows tidy) /\ ~ In (cell 1 r) gone).
Proof.
  intros (Hc & Hrows & Hlen).
  destruct (tidy_rows_view _ Hrows) as [trs Hr].
  pose proof (@to_remove_tidy tidy filter_max trs Hc Hr) as Hgone.
  eexists. eexists. split; [exact Hgone |].
  match type of Hgone with _ = Ok ?g => set (gone := g) in * end.
  assert (Hspec : forall t, In (Str t) gone <->
            exists m, is_max_price tidy t m /\ (inject_Z filter_max < m)%Q).
  { intros t. unfold gone. rewrite filter_In, unique_In_Str, ticker_key_In.
    unfold is_max_price.
    pose proof (group_max_spec (prices_of trs t)) as Hg.
    destruct (group_max (map Some (prices_of trs t))) as [x|].
    - destruct Hg as [Hin Hall]. rewrite Forall_forall in Hall. split.
      + intros [_ Hgt]. exists x. split; [split |].
        * now apply (@observed_prices_of tidy trs t x Hr).
        * intros q Hq. apply Hall. now apply (@observed_prices_of tidy trs t q Hr).
        * now apply Qgtb_lt.
      + intros [m [[Hobs _] Hlt]].
        apply (@observed_prices_of tidy trs t m Hr) in Hobs.
        split; [intros E; rewrite E in Hobs; contradiction |].
        apply Qgtb_lt. eapply Qlt_le_trans; [exact Hlt | now apply Hall].
    - split.
      + intros [_ H]; discriminate.
      + intros [m [[Hobs _] _]].
        apply (@observed_prices_of tidy trs t m Hr) in Hobs.
        rewrite Hg in Hobs. contradiction. }
  assert (Hrows_tf :
    map (fun p : value * (Z * list value) => snd (snd p))
        (filter (fun p => negb (mem value_eqb (fst p) gone))
                (combine (map (cell 1) (rows tidy))
                         (combine (labels (index tidy)) (rows tidy))))
    = filter (fun r => negb (mem value_eqb (cell 1 r) gone)) (rows tidy)).
  { apply (@filter_zip_rows value (cell 1)
             (fun v => negb (mem value_eqb v gone))
             (rows tidy) (labels (index tidy)) Hlen). }
  split.
  { unfold tidy_filtered, bind. rewrite Hgone. unfold column. rewrite Hc.
    change (index_of str_eqb (lit "Ticker") tidy_columns) with (Some 1%nat).
    cbv beta iota. rewrite Hrows_tf. reflexivity. }
  split; [exact Hspec |]. split; [simpl; now rewrite Hc |].
  split; [reflexivity |].
  intros r. simpl rows. rewrite filter_In, negb_true_iff. split.
  - intros [Hin Hm]. split; [exact Hin |]. intros Hg.
    rewrite Hr in Hin. apply in_map_iff in Hin as [x [<- _]].
    change (cell 1 (mk_row x)) with (Str (snd (fst x))) in Hm, Hg.
    apply mem_value_Str in Hg. exact (eq_true_false_abs _ Hg Hm).
  - intros [Hin Hn]. split; [exact Hin |].
    destruct (mem value_eqb (cell 1 r) gone) eqn:E; [| exact E].
    exfalso. apply Hn.
    rewrite Hr in Hin. apply in_map_iff in Hin as [x [<- _]].
    change (cell 1 (mk_row x)) with (Str (snd (fst x))) in E |- *.
    now apply mem_value_Str.
Qed.

Lemma tidy_filtered_exact_witness :
  is_tidy sample_tidy /\
  exists gone tf,
    to_remove sample_tidy 100 = Ok gone /\
    tidy_filtered sample_tidy 100 = Ok tf /\
    (In (Str (lit "RY.TO")) gone <->
     exists m, is_max_price sample_tidy (lit "RY.TO") m /\
               (inject_Z 100 < m)%Q) /\
    rows tf =
      filter (fun r => negb (mem value_eqb (cell 1 r) gone)) (rows sample_tidy).
Proof.
  assert (H : is_tidy sample_tidy) by (repeat split).
  split; [exact H |].
  destruct (@tidy_filtered_exact sample_tidy 100 H) as (gone & tf & H1 & H2 & H3 & _ & H5 & _).
  exists gone, tf. repeat split; try assumption; apply H3.
Defined.

(** ** Further properties of the symbol normaliser *)

Lemma lstrip_map (f : ascii -> ascii) (s : str) :
  (forall c, is_space (f c) = is_space c) ->
  lstrip (map f s) = map f (lstrip s).
Proof.
  intros Hf. induction s as [|c s IH]; simpl; [reflexivity |].
  rewrite Hf. destruct (is_space c); [exact IH | reflexivity].
Qed.

Lemma strip_map (f : ascii -> ascii) (s : str) :
  (forall c, is_space (f c) = is_space c) ->
  strip (map f s) = map f (strip s).
Proof.
  intros Hf. unfold strip, rstrip.
  now rewrite (lstrip_map _ _ Hf), <- map_rev, (lstrip_map _ _ Hf), map_rev.
Qed.

Lemma is_space_lower_char (c : ascii) : is_space (lower_char c) = is_space c.
Proof. destruct c as [[] [] [] [] [] [] [] []]; reflexivity. Qed.

Lemma upper_lower_char (c : ascii) : upper_char (lower_char c) = upper_char c.
Proof. destruct c as [[] [] [] [] [] [] [] []]; reflexivity. Qed.

Lemma strip_idem (s : str) : strip (strip s) = strip s.
Proof. apply trimmed_strip, strip_trimmed. Qed.

(** X1. For an ASCII input, the result of the normaliser is empty exactly
    for a blank input; otherwise it contains a dot.  It is always ASCII,
    trimmed and upper-case and never ends in an exchange qualifier. *)
Theorem map_to_yahoo_output_shape (s : str) :
  ascii_only s = true ->
  ascii_only (map_to_yahoo s) = true /\
  (map_to_yahoo s = [] <-> strip s = []) /\
  (map_to_yahoo s = [] \/ contains "."%char (map_to_yahoo s) = true) /\
  strip (map_to_yahoo s) = map_to_yahoo s /\
  upper (map_to_yahoo s) = map_to_yahoo s /\
  endswith (map_to_yahoo s) (lit ":TSX") = false /\
  endswith (map_to_yahoo s) (lit ":TSXV") = false.
Proof.
  intros Hs. split; [now apply map_to_yahoo_ascii |].
  destruct (map_to_yahoo_canonical s) as [[Ht Hu] Hr].
  split.
  { unfold map_to_yahoo. split.
    - destruct (upper (strip s)) as [|c u] eqn:E.
      + intros _. unfold upper in E. now apply map_eq_nil in E.
      + simpl is_empty. cbv iota.
        destruct (endswith (c :: u) (lit ":TSXV"));
          [intros H; apply app_eq_nil in H as [_ H]; discriminate |].
        destruct (endswith (c :: u) (lit ":TSX"));
          [intros H; apply app_eq_nil in H as [_ H]; discriminate |].
        destruct (contains "."%char (c :: u)); [discriminate |].
        intros H; apply app_eq_nil in H as [_ H]; discriminate.
    - intros ->. reflexivity. }
  split; [destruct Hr as [H | (_ & _ & H)]; auto |].
  split; [now apply trimmed_strip |].
  split; [exact Hu |].
  destruct Hr as [-> | (H5 & H4 & _)]; auto.
Qed.

Lemma map_to_yahoo_output_shape_witness :
  ascii_only (lit " ry ") = true /\
  contains "."%char (map_to_yahoo (lit " ry ")) = true /\
  (map_to_yahoo (lit "   ") = [] <-> strip (lit "   ") = []).
Proof.
  split; [reflexivity |]. split; [reflexivity |].
  exact (proj1 (proj2 (@map_to_yahoo_output_shape (lit "   ") eq_refl))).
Defined.

Lemma lstrip_spaces_app (a s : str) :
  lstrip (filter is_space a ++ s) = lstrip s.
Proof.
  induction a as [|c a IH]; simpl; [reflexivity |].
  destruct (is_space c) eqn:E; simpl; [now rewrite E | exact IH].
Qed.

Lemma lstrip_app_spaces (s b : str) :
  lstrip (s ++ filter is_space b) = lstrip s ++ filter is_space b \/
  (lstrip (s ++ filter is_space b) = [] /\ lstrip s = []).
Proof.
  induction s as [|c s IH]; simpl.
  - right. split; [| reflexivity].
    rewrite <- (app_nil_r (filter is_space b)). rewrite lstrip_spaces_app.
    reflexivity.
  - destruct (is_space c); [exact IH | now left].
Qed.

Lemma rstrip_app_spaces (s b : str) :
  rstrip (s ++ filter is_space b) = rstrip s.
Proof.
  unfold rstrip. rewrite rev_app_distr.
  assert (E : rev (filter is_space b) = filter is_space (rev b)).
  { induction b as [|c b IH]; simpl; [reflexivity |].
    rewrite filter_app. simpl. destruct (is_space c); simpl.
    - now rewrite IH.
    - now rewrite IH, app_nil_r. }
  now rewrite E, lstrip_spaces_app.
Qed.

(** White space around a string does not change what [strip] returns. *)
Lemma strip_padding (a s b : str) :
  strip (filter is_space a ++ s ++ filter is_space b) = strip s.
Proof.
  unfold strip. rewrite lstrip_spaces_app.
  destruct (lstrip_app_spaces s b) as [-> | [-> ->]].
  - apply rstrip_app_spaces.
  - reflexivity.
Qed.

(** X2. On ASCII input the normaliser ignores the case of its input and
    ASCII white space around it: upper-casing, lower-casing or stripping the
    input first, or surrounding it with any ASCII white space, gives the same
    result. *)
Theorem map_to_yahoo_insensitive (s : str) :
  ascii_only s = true ->
  map_to_yahoo (upper s) = map_to_yahoo s /\
  map_to_yahoo (lower s) = map_to_yahoo s /\
  map_to_yahoo (strip s) = map_to_yahoo s /\
  forall a b : str,
    map_to_yahoo (filter is_space a ++ s ++ filter is_space b)
    = map_to_yahoo s.
Proof.
  intros _.
  assert (Hkey : forall a b, upper (strip a) = upper (strip b) ->
                             map_to_yahoo a = map_to_yahoo b).
  { intros a b H. unfold map_to_yahoo. now rewrite H. }
  split; [| split; [| split; [| intros a b]]]; apply Hkey.
  - unfold upper. rewrite (strip_map _ _ is_space_upper_char).
    apply upper_idem.
  - unfold upper, lower. rewrite (strip_map _ _ is_space_lower_char).
    rewrite map_map. apply map_ext, upper_lower_char.
  - now rewrite strip_idem.
  - now rewrite strip_padding.
Qed.

Lemma map_to_yahoo_insensitive_witness :
  ascii_only (lit "Shop:tsx") = true /\
  map_to_yahoo (lower (lit "Shop:tsx")) = map_to_yahoo (lit "Shop:tsx").
Proof.
  split; [reflexivity |].
  exact (proj1 (proj2 (@map_to_yahoo_insensitive (lit "Shop:tsx") eq_refl))).
Defined.

(** ** Further properties of the ticker list loader *)

Lemma unique_str_In (x : str) (l : list str) :
  In x (unique str_eqb l) <-> In x l.
Proof.
  induction l as [|y l IH]; simpl; [tauto |].
  rewrite filter_In, IH, negb_true_iff. split.
  - intros [H | [H _]]; auto.
  - intros [H | H]; [now left |].
    destruct (str_eqb y x) eqn:E; [| now right].
    left. now apply str_eqb_eq.
Qed.

Lemma unique_str_NoDup (l : list str) : NoDup (unique str_eqb l).
Proof.
  induction l as [|y l IH]; simpl; constructor.
  - rewrite filter_In, negb_true_iff, str_eqb_refl. intros [_ H]; discriminate.
  - now apply NoDup_filter.
Qed.

Lemma sorted_NoDup (l : list str) : NoDup l -> NoDup (sorted l).
Proof.
  intros H. eapply Permutation_NoDup; [| exact H].
  symmetry. apply sort_by_perm.
Qed.

Lemma find_is_symbol_column (cols : list str) (col : str) :
  find is_symbol_column cols = Some col ->
  In col cols /\ is_symbol_column col = true.
Proof. apply find_some. Qed.

Lemma ascii_table_cells (t : CsvTable) (k : nat) :
  ascii_table t k = true ->
  map (fun r => nth k r None) (csv_rows t)
  = map (fun r => Some (cell_text (nth k r None))) (csv_rows t).
Proof.
  unfold ascii_table. rewrite andb_true_iff. intros [_ H].
  rewrite forallb_forall in H. apply map_ext_in. intros r Hr.
  specialize (H r Hr). destruct (nth k r None); [reflexivity | discriminate].
Qed.

Lemma ascii_table_cell (t : CsvTable) (k : nat) (r : list (option str)) :
  ascii_table t k = true -> In r (csv_rows t) ->
  nth k r None = Some (cell_text (nth k r None)) /\
  ascii_only (cell_text (nth k r None)) = true.
Proof.
  unfold ascii_table. rewrite andb_true_iff. intros [_ H] Hr.
  rewrite forallb_forall in H. specialize (H r Hr).
  destruct (nth k r None); [now split | discriminate].
Qed.

Lemma mapM_normalise_present (na_as_text : bool) (texts : list str) :
  mapM normalise_cell (map (fun s => base_cell na_as_text (Some s)) texts)
  = Ok (map (fun s => if is_empty (base_text s) then []
                      else [map_to_yahoo (base_text s)]) texts).
Proof.
  induction texts as [|s texts IH]; [reflexivity |].
  cbn [map mapM]. rewrite IH. reflexivity.
Qed.

Lemma concat_picked (texts : list str) :
  concat (map (fun s => if is_empty (base_text s) then []
                        else [map_to_yahoo (base_text s)]) texts)
  = map map_to_yahoo
        (filter (fun b => negb (is_empty b)) (map base_text texts)).
Proof.
  induction texts as [|s texts IH]; [reflexivity |].
  cbn [map concat filter]. rewrite IH.
  destruct (is_empty (base_text s)); reflexivity.
Qed.

(** What the loader computes once a symbol column has been found whose
    cells are all present. *)
Lemma load_ticker_list_main_eq (na_as_text : bool) (fs : filesystem)
    (p : str) (t : CsvTable) (col : str) (k : nat) :
  p <> [] ->
  fs p = Some (CsvFile t) ->
  find is_symbol_column (csv_columns t) = Some col ->
  index_of str_eqb col (csv_columns t) = Some k ->
  ascii_table t k = true ->
  load_ticker_list na_as_text fs (Some p) =
  mkOutcome []
    (Ok (sorted
           (unique str_eqb
              (map map_to_yahoo
                 (filter (fun s => negb (is_empty s))
                         (map (fun r => base_text (cell_text (nth k r None)))
                              (csv_rows t))))))).
Proof.
  intros Hp Hfs Hfind Hk Ha. unfold load_ticker_list, exists_, read_csv.
  rewrite Hfs. destruct p; [congruence |].
  cbn [is_empty negb andb]. rewrite Hfind, Hk.
  rewrite <- (map_map (fun r => nth k r None) (base_cell na_as_text)).
  rewrite (ascii_table_cells t k Ha).
  rewrite <- (map_map (fun r => cell_text (nth k r None)) Some).
  rewrite (map_map Some (base_cell na_as_text)).
  rewrite mapM_normalise_present. unfold bind.
  rewrite concat_picked. now rewrite map_map.
Qed.

Lemma is_empty_false (s : str) : negb (is_empty s) = true <-> s <> [].
Proof. destruct s; simpl; split; congruence. Qed.

(** X3. When the path names a CSV file with ASCII column names and a symbol
    column whose cells are all present and ASCII, the loader prints no
    warning and returns a list in strictly ascending code-point order
    (sorted, without duplicates) whose elements are exactly the normalised
    forms of the non-empty texts of that column.  This holds with either
    pandas behaviour of [astype(str)]. *)
Theorem load_ticker_list_main (na_as_text : bool) (fs : filesystem)
    (p : str) (t : CsvTable) (col : str) (k : nat) :
  p <> [] ->
  fs p = Some (CsvFile t) ->
  find is_symbol_column (csv_columns t) = Some col ->
  index_of str_eqb col (csv_columns t) = Some k ->
  ascii_table t k = true ->
  exists ts,
    load_ticker_list na_as_text fs (Some p) = mkOutcome [] (Ok ts) /\
    Sorted str_le ts /\
    NoDup ts /\
    (forall x,
        In x ts <->
        exists r s, In r (csv_rows t) /\
                    nth k r None = Some s /\
                    base_text s <> [] /\
                    x = map_to_yahoo (base_text s)).
Proof.
  intros Hp Hfs Hfind Hk Ha.
  eexists.
  split; [apply (@load_ticker_list_main_eq na_as_text fs p t col k
                   Hp Hfs Hfind Hk Ha) |].
  split; [apply sorted_Sorted |].
  split; [apply sorted_NoDup, unique_str_NoDup |].
  intros x. rewrite sorted_In, unique_str_In, in_map_iff. split.
  - intros [b [<- Hb]]. apply filter_In in Hb as [Hb Hne].
    apply in_map_iff in Hb as [r [<- Hr]].
    exists r, (cell_text (nth k r None)). split; [exact Hr |].
    split; [apply (ascii_table_cell t k r Ha Hr) |].
    split; [now apply is_empty_false | reflexivity].
  - intros [r [s (Hr & Hs & Hne & ->)]]. eexists. split; [reflexivity |].
    apply filter_In. split; [| now apply is_empty_false].
    apply in_map_iff. exists r. split; [| exact Hr]. now rewrite Hs.
Qed.

Lemma load_ticker_list_main_witness :
  ascii_table (mkCsv [lit "Symbol"; lit "Name"]
                     [[Some (lit "abc:TSXV"); Some (lit "Abc Corp")];
                      [Some (lit "RY:TSX"); Some (lit "Royal Bank")];
                      [Some (lit "ry"); Some (lit "Royal Bank")]]) 0 = true /\
  exists ts,
    load_ticker_list false sample_venture_fs (Some (lit "venture.csv"))
      = mkOutcome [] (Ok ts) /\
    Sorted str_le ts /\ NoDup ts.
Proof.
  split; [reflexivity |].
  destruct (@load_ticker_list_main false sample_venture_fs (lit "venture.csv")
              (mkCsv [lit "Symbol"; lit "Name"]
                     [[Some (lit "abc:TSXV"); Some (lit "Abc Corp")];
                      [Some (lit "RY:TSX"); Some (lit "Royal Bank")];
                      [Some (lit "ry"); Some (lit "Royal Bank")]])
              (lit "Symbol") 0%nat
              ltac:(discriminate) eq_refl eq_refl eq_refl eq_refl)
    as (ts & H1 & H2 & H3 & _).
  exists ts. repeat split; assumption.
Defined.

(** *** Loaded tickers are canonical *)

Lemma lstrip_nil_iff (s : str) : lstrip s = [] <-> forallb is_space s = true.
Proof.
  induction s as [|c s IH]; simpl; [tauto |].
  destruct (is_space c); simpl; [exact IH | split; discriminate].
Qed.

Lemma strip_nonempty (s : str) :
  s <> [] -> clean_head s = true -> strip s <> [].
Proof.
  intros Hne Hc. unfold strip. rewrite (lstrip_fix _ Hc).
  unfold rstrip. intros E.
  apply (f_equal (@rev ascii)) in E. rewrite rev_involutive in E. simpl in E.
  apply lstrip_nil_iff in E. rewrite forallb_forall in E.
  destruct s as [|c s]; [congruence |]. simpl in Hc.
  specialize (E c). rewrite <- in_rev in E.
  rewrite E in Hc by now left. discriminate.
Qed.

Lemma clean_head_prefix (p q : str) :
  clean_head (p ++ q) = true -> q <> [] -> clean_head p = true.
Proof. destruct p; simpl; auto. Qed.

Lemma sub_tsx_suffix_clean (s : str) :
  clean_head s = true -> clean_head (sub_tsx_suffix s) = true.
Proof.
  intros Hc. unfold sub_tsx_suffix.
  destruct (endswith s (lit ":TSXV")) eqn:E5.
  { apply endswith_iff in E5 as [p ->].
    change (-5)%Z with (- Z.of_nat (length (lit ":TSXV")))%Z.
    rewrite slice_to_drop_suffix by discriminate.
    eapply clean_head_prefix; [exact Hc | discriminate]. }
  destruct (endswith s (lit ":TSX")) eqn:E4; [| exact Hc].
  apply endswith_iff in E4 as [p ->].
  change (-4)%Z with (- Z.of_nat (length (lit ":TSX")))%Z.
  rewrite slice_to_drop_suffix by discriminate.
  eapply clean_head_prefix; [exact Hc | discriminate].
Qed.

Lemma sub_tsx_suffix_incl (s : str) : incl (sub_tsx_suffix s) s.
Proof.
  unfold sub_tsx_suffix.
  destruct (endswith s (lit ":TSXV")) eqn:E5.
  { apply endswith_iff in E5 as [p ->].
    change (-5)%Z with (- Z.of_nat (length (lit ":TSXV")))%Z.
    rewrite slice_to_drop_suffix by discriminate. now apply incl_appl. }
  destruct (endswith s (lit ":TSX")) eqn:E4; [| apply incl_refl].
  apply endswith_iff in E4 as [p ->].
  change (-4)%Z with (- Z.of_nat (length (lit ":TSX")))%Z.
  rewrite slice_to_drop_suffix by discriminate. now apply incl_appl.
Qed.

Lemma base_text_ascii (s : str) :
  ascii_only s = true -> ascii_only (base_text s) = true.
Proof.
  intros H. unfold base_text.
  eapply ascii_only_incl; [apply sub_tsx_suffix_incl |].
  now apply ascii_only_strip.
Qed.

Lemma base_text_strip_nonempty (s : str) :
  base_text s <> [] -> strip (base_text s) <> [].
Proof.
  intros Hne. apply strip_nonempty; [exact Hne |].
  unfold base_text. apply sub_tsx_suffix_clean.
  apply (strip_trimmed s).
Qed.

(** X4. Every ticker the loader reads from a CSV file with ASCII column
    names and a symbol column whose cells are all present and ASCII is
    canonical: it is ASCII and not empty, it contains a dot, and the
    normaliser leaves it unchanged. *)
Theorem load_ticker_list_canonical (na_as_text : bool) (fs : filesystem)
    (p : str) (t : CsvTable) (col : str) (k : nat) (ts : list str) :
  p <> [] ->
  fs p = Some (CsvFile t) ->
  find is_symbol_column (csv_columns t) = Some col ->
  index_of str_eqb col (csv_columns t) = Some k ->
  ascii_table t k = true ->
  returned (load_ticker_list na_as_text fs (Some p)) = Ok ts ->
  Forall (fun x => ascii_only x = true /\ x <> [] /\
                   contains "."%char x = true /\ map_to_yahoo x = x) ts.
Proof.
  intros Hp Hfs Hfind Hk Ha Hret.
  rewrite (@load_ticker_list_main_eq na_as_text fs p t col k
             Hp Hfs Hfind Hk Ha) in Hret.
  simpl in Hret. inversion Hret; subst ts; clear Hret.
  apply Forall_forall. intros x Hx.
  apply sorted_In, unique_str_In, in_map_iff in Hx as [b [<- Hb]].
  apply filter_In in Hb as [Hb Hne].
  apply in_map_iff in Hb as [r [<- Hr]].
  destruct (ascii_table_cell t k r Ha Hr) as [_ Hasc].
  set (s := cell_text (nth k r None)) in *.
  apply is_empty_false in Hne. apply base_text_strip_nonempty in Hne.
  destruct (map_to_yahoo_canonical (base_text s)) as [Hn Hcan].
  assert (Hnonempty : map_to_yahoo (base_text s) <> []).
  { unfold map_to_yahoo.
    destruct (upper (strip (base_text s))) as [|c u] eqn:E.
    - unfold upper in E. apply map_eq_nil in E. contradiction.
    - cbn [is_empty].
      destruct (endswith (c :: u) (lit ":TSXV"));
        [intros H; apply app_eq_nil in H as [_ H]; discriminate |].
      destruct (endswith (c :: u) (lit ":TSX"));
        [intros H; apply app_eq_nil in H as [_ H]; discriminate |].
      destruct (contains "."%char (c :: u)); [discriminate |].
      intros H; apply app_eq_nil in H as [_ H]; discriminate. }
  split; [now apply map_to_yahoo_ascii, base_text_ascii |].
  split; [exact Hnonempty |]. split.
  - destruct Hcan as [H | (_ & _ & H)]; [contradiction | exact H].
  - now apply map_to_yahoo_fixed.
Qed.

Lemma load_ticker_list_canonical_witness :
  returned (load_ticker_list false sample_venture_fs (Some (lit "venture.csv")))
    = Ok [lit "ABC.TO"; lit "RY.TO"] /\
  Forall (fun x => ascii_only x = true /\ x <> [] /\
                   contains "."%char x = true /\ map_to_yahoo x = x)
         [lit "ABC.TO"; lit "RY.TO"].
Proof.
  split; [reflexivity |].
  apply (@load_ticker_list_canonical false sample_venture_fs
              (lit "venture.csv")
              (mkCsv [lit "Symbol"; lit "Name"]
                     [[Some (lit "abc:TSXV"); Some (lit "Abc Corp")];
                      [Some (lit "RY:TSX"); Some (lit "Royal Bank")];
                      [Some (lit "ry"); Some (lit "Royal Bank")]])
              (lit "Symbol") 0%nat);
    [discriminate | reflexivity | reflexivity | reflexivity | reflexivity
    | reflexivity].
Defined.

Lemma sub_tsx_suffix_qualifier (q : str) (e : qualifier) :
  sub_tsx_suffix (q ++ qualifier_text e) = q.
Proof.
  unfold sub_tsx_suffix. destruct e; cbv beta iota delta [qualifier_text].
  - assert (E : endswith (q ++ lit ":TSX") (lit ":TSXV") = false).
    { unfold endswith. rewrite rev_app_distr. reflexivity. }
    rewrite E, endswith_app.
    change (-4)%Z with (- Z.of_nat (length (lit ":TSX")))%Z.
    now rewrite slice_to_drop_suffix by discriminate.
  - rewrite endswith_app.
    change (-5)%Z with (- Z.of_nat (length (lit ":TSXV")))%Z.
    now rewrite slice_to_drop_suffix by discriminate.
Qed.

(** X5. The loader removes an exchange qualifier before it normalises: in
    a CSV file with ASCII column names and a symbol column whose cells are
    all present and ASCII, a cell whose stripped text is [q] followed by
    ":TSX" or ":TSXV" is listed as the normal form of [q] alone.  A venture
    symbol such as "abc:TSXV" is therefore listed as "ABC.TO", where
    [map_to_yahoo] alone gives "ABC.V". *)
Theorem load_ticker_list_drops_qualifier (na_as_text : bool)
    (fs : filesystem) (p : str) (t : CsvTable) (col : str) (k : nat)
    (ts : list str) (r : list (option str)) (c q : str) (e : qualifier) :
  p <> [] ->
  fs p = Some (CsvFile t) ->
  find is_symbol_column (csv_columns t) = Some col ->
  index_of str_eqb col (csv_columns t) = Some k ->
  ascii_table t k = true ->
  returned (load_ticker_list na_as_text fs (Some p)) = Ok ts ->
  In r (csv_rows t) ->
  nth k r None = Some c ->
  strip c = q ++ qualifier_text e ->
  q <> [] ->
  In (map_to_yahoo q) ts.
Proof.
  intros Hp Hfs Hfind Hk Ha Hret Hr Hc Hq Hne.
  rewrite (@load_ticker_list_main_eq na_as_text fs p t col k
             Hp Hfs Hfind Hk Ha) in Hret.
  simpl in Hret. inversion Hret; subst ts; clear Hret.
  apply sorted_In, unique_str_In, in_map_iff.
  exists q. split; [reflexivity |].
  apply filter_In. split; [| now apply is_empty_false].
  apply in_map_iff. exists r. split; [| exact Hr].
  rewrite Hc. unfold base_text, cell_text. rewrite Hq.
  apply sub_tsx_suffix_qualifier.
Qed.

Lemma load_ticker_list_drops_qualifier_witness :
  returned (load_ticker_list false sample_venture_fs
                             (Some (lit "venture.csv")))
    = Ok [lit "ABC.TO"; lit "RY.TO"] /\
  In (lit "ABC.TO") [lit "ABC.TO"; lit "RY.TO"] /\
  map_to_yahoo (lit "abc:TSXV") = lit "ABC.V".
Proof.
  split; [reflexivity |]. split; [| reflexivity].
  apply (@load_ticker_list_drops_qualifier false sample_venture_fs
           (lit "venture.csv")
           (mkCsv [lit "Symbol"; lit "Name"]
                  [[Some (lit "abc:TSXV"); Some (lit "Abc Corp")];
                   [Some (lit "RY:TSX"); Some (lit "Royal Bank")];
                   [Some (lit "ry"); Some (lit "Royal Bank")]])
           (lit "Symbol") 0%nat [lit "ABC.TO"; lit "RY.TO"]
           [Some (lit "abc:TSXV"); Some (lit "Abc Corp")]
           (lit "abc:TSXV") (lit "abc") TSXV);
    [discriminate | reflexivity | reflexivity | reflexivity | reflexivity
    | reflexivity | now left | reflexivity | reflexivity | discriminate].
Defined.

(** ** Further properties of the price downloader *)

Example download_prices_sample :
  download_prices sample_provider [lit "RY.TO"; lit "TD.TO"; lit "XX.TO"] 0 1
  = Ok sample_download.
Proof. reflexivity. Qed.

(** The shape of every result of the downloader for a non-empty ticker
    collection. *)
Lemma download_prices_inv (yf_download : provider) (tickers : list str)
    (start end_ : Z) (out : DataFrame) :
  download_prices yf_download tickers start end_ = Ok out ->
  out = empty_frame \/
  exists out0,
    index out0 = dl_index (yf_download tickers start end_) /\
    out = ffill (dropna_all_columns (sort_index out0)).
Proof.
  unfold download_prices. destruct tickers as [|only rest].
  - intros E; inversion E. now left.
  - unfold bind.
    destruct (dl_columns (yf_download (only :: rest) start end_)) as [names | pairs].
    + destruct (index_of str_eqb adj_close names); [| discriminate].
      intros E; inversion E. right. eexists. split; [| reflexivity]. reflexivity.
    + intros E; inversion E. right. eexists. split; [| reflexivity]. reflexivity.
Qed.

Lemma Sorted_map_fst (A : Type) (s : list (Z * A)) :
  Sorted (fun p q => (fst p <=? fst q)%Z = true) s ->
  Sorted Z.le (map fst s).
Proof.
  induction 1 as [|p s Hs IH Hd]; simpl; constructor; [exact IH |].
  destruct Hd as [|q s Hq]; simpl; constructor. now apply Z.leb_le.
Qed.

Lemma sort_index_labels_sorted (df : DataFrame) :
  Sorted Z.le (labels (index (sort_index df))).
Proof.
  unfold sort_index. cbn [index labels].
  apply Sorted_map_fst, sort_by_sorted.
  intros p q. destruct (Z.leb_spec (fst p) (fst q)); [now left | right].
  apply Z.leb_le. lia.
Qed.

Lemma sort_index_labels_incl (df : DataFrame) :
  incl (labels (index (sort_index df))) (labels (index df)).
Proof.
  unfold sort_index. cbn [index labels]. intros d Hd.
  apply in_map_iff in Hd as [[d' r] [<- Hp]].
  apply sort_by_In in Hp. now apply in_combine_l in Hp.
Qed.

(** X6. The table the downloader returns is in ascending date order, and
    each of its dates is a date of the provider's answer. *)
Theorem download_prices_dates_sorted (yf_download : provider)
    (tickers : list str) (start end_ : Z) (out : DataFrame) :
  download_prices yf_download tickers start end_ = Ok out ->
  Sorted Z.le (labels (index out)) /\
  incl (labels (index out))
       (labels (dl_index (yf_download tickers start end_))).
Proof.
  intros H. apply download_prices_inv in H as [-> | [out0 [Hi ->]]].
  - split; [constructor | intros d []].
  - cbn [ffill dropna_all_columns index]. rewrite <- Hi.
    split; [apply sort_index_labels_sorted | apply sort_index_labels_incl].
Qed.

Lemma download_prices_dates_sorted_witness :
  download_prices sample_provider [lit "RY.TO"; lit "TD.TO"; lit "XX.TO"] 0 1
    = Ok sample_download /\
  Sorted Z.le (labels (index sample_download)).
Proof.
  split; [reflexivity |].
  exact (proj1 (@download_prices_dates_sorted sample_provider
                  [lit "RY.TO"; lit "TD.TO"; lit "XX.TO"] 0 1
                  sample_download eq_refl)).
Defined.


(** *** Forward fill *)

Lemma fill_row_length (prev row : list value) :
  length (fill_row prev row) = length row.
Proof.
  revert prev; induction row as [|v row IH]; intros prev; simpl;
    [reflexivity | now rewrite IH].
Qed.

Lemma cell_fill_row (k : nat) (prev row : list value) :
  (k < length row)%nat ->
  cell k (fill_row prev row) =
  if isna (cell k row) then cell k prev else cell k row.
Proof.
  unfold cell. revert k prev; induction row as [|v row IH]; intros k prev Hk;
    simpl in Hk; [lia |].
  destruct k as [|k]; simpl.
  - destruct prev; reflexivity.
  - rewrite IH by lia. destruct prev as [|p prev]; simpl; [| reflexivity].
    destruct k; reflexivity.
Qed.

Lemma present_lt (k : nat) (r : list value) :
  present k r -> (k < length r)%nat.
Proof.
  unfold present, cell. intros H.
  destruct (Nat.lt_ge_cases k (length r)) as [Hlt | Hge]; [exact Hlt |].
  rewrite nth_overflow in H by exact Hge. discriminate.
Qed.

Lemma fill_row_present_prev (k n : nat) (prev row : list value) :
  length row = n -> (k < n)%nat -> present k prev ->
  present k (fill_row prev row).
Proof.
  intros Hl Hk Hp. unfold present in *. rewrite cell_fill_row by lia.
  destruct (isna (cell k row)) eqn:E; [exact Hp | exact E].
Qed.

Lemma fill_row_present_row (k : nat) (prev row : list value) :
  present k row -> present k (fill_row prev row).
Proof.
  intros Hp. pose proof (present_lt Hp) as Hk. unfold present in *.
  rewrite cell_fill_row by exact Hk. now rewrite Hp.
Qed.

Lemma ffill_rows_present_below (k n : nat) (rs : list (list value)) :
  Forall (fun r => length r = n) rs ->
  forall prev, length prev = n -> present k prev ->
  Forall (present k) (ffill_rows prev rs).
Proof.
  induction 1 as [|r rs Hr _ IH]; intros prev Hl Hp; simpl; [constructor |].
  assert (Hp' : present k (fill_row prev r)).
  { apply fill_row_present_prev with (n := n); auto.
    rewrite <- Hl. now apply present_lt. }
  constructor; [exact Hp' |].
  apply IH; [now rewrite fill_row_length | exact Hp'].
Qed.

(** In a forward-filled table with rows of one length, a value in a column
    is followed by values only. *)
Lemma ffill_rows_no_gap (k n : nat) (rs : list (list value)) :
  Forall (fun r => length r = n) rs ->
  forall prev above r below,
    ffill_rows prev rs = above ++ r :: below ->
    present k r -> Forall (present k) below.
Proof.
  induction 1 as [|x rs Hx Hrs IH]; intros prev above r below E Hp; simpl in E.
  - destruct above; discriminate.
  - destruct above as [|a above]; simpl in E; injection E as E1 E2.
    + subst r below. apply ffill_rows_present_below with (n := n); auto.
      now rewrite fill_row_length.
    + eapply IH; eauto.
Qed.

Lemma take_columns_lengths (js : list nat) (rs : list (list value)) :
  Forall (fun r => length r = length js) (take_columns js rs).
Proof.
  unfold take_columns. apply Forall_forall. intros r Hr.
  apply in_map_iff in Hr as [r0 [<- _]]. apply length_map.
Qed.

(** X7. Forward fill leaves no gap: in the table the downloader returns, a
    cell that holds a price is followed, further down its column, by cells
    that hold a price. *)
Theorem download_prices_forward_filled (yf_download : provider)
    (tickers : list str) (start end_ : Z) (out : DataFrame)
    (above below : list (list value)) (r : list value) (k : nat) :
  download_prices yf_download tickers start end_ = Ok out ->
  rows out = above ++ r :: below ->
  present k r ->
  Forall (present k) below.
Proof.
  intros H Hrows Hp. apply download_prices_inv in H as [-> | [out0 [_ ->]]].
  - destruct above; discriminate.
  - cbn [ffill dropna_all_columns rows] in Hrows.
    eapply ffill_rows_no_gap; [apply take_columns_lengths | exact Hrows | exact Hp].
Qed.

Lemma download_prices_forward_filled_witness :
  download_prices sample_provider [lit "RY.TO"; lit "TD.TO"; lit "XX.TO"] 0 1
    = Ok sample_download /\
  present 1 [Num (100 # 1); Num (80 # 1)] /\
  Forall (present 1) [[Num (102 # 1); Num (80 # 1)]].
Proof.
  split; [reflexivity |]. split; [reflexivity |].
  apply (@download_prices_forward_filled sample_provider
           [lit "RY.TO"; lit "TD.TO"; lit "XX.TO"] 0 1 sample_download
           [[Num (100 # 1); NaN]] [[Num (102 # 1); Num (80 # 1)]]
           [Num (100 # 1); Num (80 # 1)] 1%nat);
    reflexivity.
Defined.

(** *** Columns that survive *)

Lemma cell_map (k : nat) (f : nat -> value) (js : list nat) :
  (k < length js)%nat -> cell k (map f js) = f (nth k js 0%nat).
Proof.
  intros Hk. unfold cell.
  rewrite (nth_indep _ NaN (f 0%nat)) by now rewrite length_map.
  apply map_nth.
Qed.

Lemma last_nonempty_indep (A : Type) (a : A) (l : list A) (d d' : A) :
  last (a :: l) d = last (a :: l) d'.
Proof.
  revert a; induction l as [|b l IH]; intros a; [reflexivity |].
  change (last (b :: l) d = last (b :: l) d'). apply IH.
Qed.

Lemma ffill_rows_app (prev : list value) (xs ys : list (list value)) :
  ffill_rows prev (xs ++ ys) =
  ffill_rows prev xs ++ ffill_rows (last (ffill_rows prev xs) prev) ys.
Proof.
  revert prev; induction xs as [|x xs IH]; intros prev; simpl; [reflexivity |].
  rewrite IH. f_equal. f_equal. f_equal.
  destruct (ffill_rows (fill_row prev x) xs) eqn:E; [reflexivity |].
  apply last_nonempty_indep.
Qed.

Lemma last_of_suffix (A : Type) (xs ys init : list A) (l : A) :
  xs ++ ys = init ++ [l] -> ys <> [] -> In l ys.
Proof.
  intros E Hne. apply (f_equal (@rev A)) in E.
  rewrite !rev_app_distr in E. simpl in E.
  destruct (rev ys) as [|y rys] eqn:Ey.
  - apply (f_equal (@rev A)) in Ey. rewrite rev_involutive in Ey.
    simpl in Ey. congruence.
  - simpl in E. inversion E; subst.
    apply in_rev. rewrite Ey. now left.
Qed.

(** X8. Every column of the table the downloader returns holds at least
    one price, and its last row holds a price in every column. *)
Theorem download_prices_last_row_complete (yf_download : provider)
    (tickers : list str) (start end_ : Z) (out : DataFrame) (k : nat) :
  download_prices yf_download tickers start end_ = Ok out ->
  (k < length (columns out))%nat ->
  (exists r, In r (rows out) /\ present k r) /\
  (forall init last_row,
      rows out = init ++ [last_row] -> present k last_row).
Proof.
  intros H Hk. apply download_prices_inv in H as [-> | [out0 [_ ->]]].
  { simpl in Hk. lia. }
  cbn [ffill dropna_all_columns rows columns] in *.
  set (df := sort_index out0) in *.
  set (js := filter (fun j => existsb (fun r => negb (isna (cell j r))) (rows df))
                    (seq 0 (length (columns df)))) in *.
  rewrite length_map in Hk.
  assert (Hj : In (nth k js 0%nat) js) by now apply nth_In.
  unfold js in Hj at 2. apply filter_In in Hj as [_ Hex].
  apply existsb_exists in Hex as [r0 [Hr0 Hpr]].
  apply negb_true_iff in Hpr.
  apply in_split in Hr0 as [xs [ys Hsplit]].
  assert (Hpre : take_columns js (rows df) =
                 take_columns js xs ++
                 map (fun j => cell j r0) js :: take_columns js ys).
  { unfold take_columns. rewrite Hsplit, map_app. reflexivity. }
  assert (Hp0 : present k (map (fun j => cell j r0) js)).
  { unfold present. now rewrite cell_map. }
  rewrite Hpre, ffill_rows_app. simpl ffill_rows.
  set (p := last (ffill_rows [] (take_columns js xs)) []).
  set (r1 := fill_row p (map (fun j => cell j r0) js)).
  assert (Hp1 : present k r1) by now apply fill_row_present_row.
  assert (Hbelow : Forall (present k) (ffill_rows r1 (take_columns js ys))).
  { apply ffill_rows_present_below with (n := length js).
    - apply take_columns_lengths.
    - unfold r1. now rewrite fill_row_length, length_map.
    - exact Hp1. }
  split.
  - exists r1. split; [| exact Hp1]. apply in_or_app. right. now left.
  - intros init last_row E.
    apply last_of_suffix in E; [| discriminate].
    destruct E as [<- | E]; [exact Hp1 |].
    rewrite Forall_forall in Hbelow. now apply Hbelow.
Qed.

Lemma download_prices_last_row_complete_witness :
  download_prices sample_provider [lit "RY.TO"; lit "TD.TO"; lit "XX.TO"] 0 1
    = Ok sample_download /\
  present 1 [Num (102 # 1); Num (80 # 1)].
Proof.
  split; [reflexivity |].
  refine (proj2 (@download_prices_last_row_complete sample_provider
                   [lit "RY.TO"; lit "TD.TO"; lit "XX.TO"] 0 1
                   sample_download 1%nat eq_refl _)
                [[Num (100 # 1); NaN]; [Num (100 # 1); Num (80 # 1)]]
                [Num (102 # 1); Num (80 # 1)] eq_refl).
  simpl. lia.
Defined.

(** *** Column names *)

Lemma index_of_none_mem (x : str) (l : list str) :
  index_of str_eqb x l = None <-> mem str_eqb x l = false.
Proof.
  unfold mem. induction l as [|y l IH]; simpl; [tauto |].
  destruct (str_eqb x y); simpl; [split; discriminate |].
  rewrite <- IH. destruct (index_of str_eqb x l); simpl; split; congruence.
Qed.

Lemma dropna_all_columns_incl (df : DataFrame) :
  incl (columns (dropna_all_columns df)) (columns df).
Proof.
  unfold dropna_all_columns. cbn [columns]. intros c Hc.
  apply in_map_iff in Hc as [j [<- Hj]].
  apply filter_In in Hj as [Hj _]. apply in_seq in Hj.
  apply nth_In. lia.
Qed.

(** X9. For a provider answer with plain field names (one ticker), the
    downloader raises [KeyError] when there is no field "Adj Close";
    otherwise it returns a table whose only possible column is named after
    the first ticker. *)
Theorem download_prices_single_ticker (yf_download : provider)
    (only : str) (rest : list str) (start end_ : Z) (names : list str) :
  dl_columns (yf_download (only :: rest) start end_) = Flat names ->
  if mem str_eqb adj_close names then
    exists out,
      download_prices yf_download (only :: rest) start end_ = Ok out /\
      incl (columns out) [only]
  else
    download_prices yf_download (only :: rest) start end_ = Raise KeyError.
Proof.
  intros Hc. unfold download_prices, bind. rewrite Hc.
  destruct (index_of str_eqb adj_close names) as [k|] eqn:Ek.
  - assert (Hm : mem str_eqb adj_close names = true).
    { destruct (mem str_eqb adj_close names) eqn:E; [reflexivity |].
      apply index_of_none_mem in E. congruence. }
    rewrite Hm. eexists. split; [reflexivity |].
    cbn [ffill columns]. eapply incl_tran; [apply dropna_all_columns_incl |].
    apply incl_refl.
  - apply index_of_none_mem in Ek. now rewrite Ek.
Qed.

Lemma download_prices_single_ticker_witness :
  exists out,
    download_prices sample_provider [lit "RY.TO"] 0 1 = Ok out /\
    incl (columns out) [lit "RY.TO"].
Proof.
  exact (@download_prices_single_ticker sample_provider (lit "RY.TO") [] 0 1
           [lit "Close"; adj_close] eq_refl).
Defined.

(** X10. For a provider answer with (ticker, field) columns, the downloader
    does not raise, and every column of its result is named after a ticker
    for which the provider sent a field "Adj Close". *)
Theorem download_prices_many_tickers (yf_download : provider)
    (only : str) (rest : list str) (start end_ : Z)
    (pairs : list (str * str)) :
  dl_columns (yf_download (only :: rest) start end_) = MultiIndex pairs ->
  exists out,
    download_prices yf_download (only :: rest) start end_ = Ok out /\
    forall c, In c (columns out) -> In (c, adj_close) pairs.
Proof.
  intros Hc. unfold download_prices, bind. rewrite Hc.
  eexists. split; [reflexivity |].
  intros c Hin. cbn [ffill columns] in Hin.
  apply dropna_all_columns_incl in Hin.
  unfold sort_index in Hin. cbn [columns] in Hin.
  apply in_map_iff in Hin as [j [<- Hj]].
  apply filter_In in Hj as [Hj Hs]. apply in_seq in Hj.
  apply str_eqb_eq in Hs. rewrite <- Hs, <- surjective_pairing.
  apply nth_In. lia.
Qed.

Lemma download_prices_many_tickers_witness :
  exists out,
    download_prices sample_provider [lit "RY.TO"; lit "TD.TO"; lit "XX.TO"] 0 1
      = Ok out /\
    forall c, In c (columns out) ->
              In (c, adj_close)
                 [(lit "RY.TO", adj_close); (lit "RY.TO", lit "Close");
                  (lit "TD.TO", adj_close); (lit "XX.TO", adj_close)].
Proof.
  exact (@download_prices_many_tickers sample_provider (lit "RY.TO")
           [lit "TD.TO"; lit "XX.TO"] 0 1 _ eq_refl).
Defined.

(** ** Further properties of the reshaper *)

Lemma in_combine_some (A B : Type) (ls : list A) (xs : list B) (x : B) :
  length ls = length xs -> In x xs -> exists l, In (l, x) (combine ls xs).
Proof.
  revert ls; induction xs as [|y xs IH]; intros [|l ls] Hlen Hin;
    simpl in *; try discriminate; try contradiction.
  destruct Hin as [-> | Hin].
  - exists l. now left.
  - destruct (IH ls ltac:(lia) Hin) as [l' Hl']. exists l'. now right.
Qed.

Lemma length_range (n : nat) : length (range n) = n.
Proof. unfold range. now rewrite length_map, length_seq. Qed.

Lemma index_of_head (x : str) (l : list str) :
  index_of str_eqb x (x :: l) = Some 0%nat.
Proof. simpl. now rewrite str_eqb_refl. Qed.

(** What the reshaper computes on a frame indexed by timestamps named
    "Date" that has no column "Date" or "Adj Close". *)
Lemma tidy_from_wide_eq (check : bool) (adj : DataFrame) :
  idx_name (index adj) = Some (lit "Date") ->
  idx_dtype (index adj) = Datetime ->
  mem str_eqb (lit "Date") (columns adj) = false ->
  mem str_eqb adj_close (columns adj) = false ->
  let out :=
    flat_map
      (fun j =>
         map (fun r => [cell 0 r; Str (nth j (lit "Date" :: columns adj) []);
                        cell j r])
             (map (fun p => Date (fst p) :: snd p)
                  (combine (labels (index adj)) (rows adj))))
      (positions_except 0 (S (length (columns adj)))) in
  let kept :=
    filter (fun p : Z * list value => negb (isna (cell 2 (snd p))))
           (combine (range (length out)) out) in
  tidy_from_wide check adj =
  Ok (mkDataFrame (mkIndex None Integer (map fst kept)) tidy_columns
                  (map snd kept)).
Proof.
  intros Hname Hty Hdate Hadj out kept.
  unfold tidy_from_wide, bind, reset_index. rewrite Hname, Hty, Hdate.
  unfold melt. cbn [columns rows index].
  assert (Hm : mem str_eqb adj_close (lit "Date" :: columns adj) = false).
  { unfold mem in *. simpl. exact Hadj. }
  rewrite Hm, andb_false_r.
  change (index_of str_eqb (lit "Date") (lit "Date" :: columns adj))
    with (Some 0%nat).
  cbv beta iota. unfold dropna_subset. cbn [columns rows index].
  change (index_of str_eqb adj_close [lit "Date"; lit "Ticker"; adj_close])
    with (Some 2%nat).
  reflexivity.
Qed.

Lemma map_snd_filter_combine (A B : Type) (g : B -> bool) (ls : list A)
    (xs : list B) :
  length ls = length xs ->
  map snd (filter (fun p : A * B => g (snd p)) (combine ls xs)) = filter g xs.
Proof.
  revert ls; induction xs as [|x xs IH]; intros [|l ls] H; simpl in *;
    try discriminate; try reflexivity.
  destruct (g x); simpl; rewrite IH by lia; reflexivity.
Qed.

Lemma filter_all (A : Type) (f : A -> bool) (l : list A) :
  (forall x, In x l -> f x = true) -> filter f l = l.
Proof.
  induction l as [|x l IH]; intros H; simpl; [reflexivity |].
  rewrite (H x) by now left. f_equal. apply IH. intros y Hy. apply H. now right.
Qed.

Lemma filter_flat_map (A B : Type) (f : B -> bool) (g : A -> list B)
    (l : list A) :
  filter f (flat_map g l) = flat_map (fun x => filter f (g x)) l.
Proof.
  induction l as [|x l IH]; simpl; [reflexivity |].
  now rewrite filter_app, IH.
Qed.

Lemma filter_map_flat_map (A B : Type) (f : B -> bool) (h : A -> B)
    (l : list A) :
  filter f (map h l) = flat_map (fun x => if f (h x) then [h x] else []) l.
Proof.
  induction l as [|x l IH]; simpl; [reflexivity |].
  destruct (f (h x)); simpl; now rewrite IH.
Qed.

Lemma positions_except_0 (n : nat) :
  positions_except 0 (S n) = map S (seq 0 n).
Proof.
  unfold positions_except. cbn [seq filter Nat.eqb negb].
  rewrite <- seq_shift. apply filter_all.
  intros j Hj. apply in_map_iff in Hj as [i [<- _]]. reflexivity.
Qed.

(** X11. On a frame indexed by timestamps under the name "Date", with no
    column called "Date" or "Adj Close", the reshaper succeeds, and its rows
    are exactly the cells of the wide table that hold a value, each once:
    column by column and, within a column, in the order of the wide rows, one
    row (day, column name, value) per cell that is not missing.  In
    particular its rows of the form (day, ticker, price) are the cells that
    hold a number. *)
Theorem tidy_from_wide_observations (check : bool) (adj : DataFrame) :
  idx_name (index adj) = Some (lit "Date") ->
  idx_dtype (index adj) = Datetime ->
  mem str_eqb (lit "Date") (columns adj) = false ->
  mem str_eqb adj_close (columns adj) = false ->
  exists t,
    tidy_from_wide check adj = Ok t /\
    rows t = present_cells adj /\
    forall d c q,
      In [Date d; Str c; Num q] (rows t) <->
      exists r j,
        In (d, r) (combine (labels (index adj)) (rows adj)) /\
        nth_error (columns adj) j = Some c /\
        nth_error r j = Some (Num q).
Proof.
  intros Hname Hty Hdate Hadj.
  eexists. split; [apply (tidy_from_wide_eq check adj Hname Hty Hdate Hadj) |].
  split.
  { cbn [rows].
    rewrite (@map_snd_filter_combine _ _
               (fun x : list value => negb (isna (cell 2 x))))
      by apply length_range.
    rewrite positions_except_0, filter_flat_map, flat_map_concat_map, map_map.
    rewrite <- flat_map_concat_map. unfold present_cells.
    apply flat_map_ext. intros j.
    rewrite map_map, filter_map_flat_map.
    apply flat_map_ext. intros [d r]. unfold cell. cbn [nth fst snd].
    destruct (isna (nth j r NaN)); reflexivity. }
  intros d c q. cbn [rows].
  set (out := flat_map _ _).
  split.
  - intros Hin. apply in_map_iff in Hin as [[i x] [Ex Hin]].
    simpl in Ex. subst x.
    apply filter_In in Hin as [Hin _]. apply in_combine_r in Hin.
    unfold out in Hin. apply in_flat_map in Hin as [j [Hj Hin]].
    apply in_map_iff in Hin as [r' [Er Hr']].
    apply in_map_iff in Hr' as [[l r0] [<- Hr0]].
    unfold positions_except in Hj. apply filter_In in Hj as [Hj Hne].
    apply in_seq in Hj. destruct j as [|j]; [discriminate |].
    unfold cell in Er. simpl in Er. injection Er as E1 E2 E3. subst l.
    exists r0, j. split; [exact Hr0 |]. split.
    + rewrite <- E2. apply nth_error_nth'. lia.
    + destruct (Nat.lt_ge_cases j (length r0)) as [Hlt | Hge].
      * rewrite <- E3. now apply nth_error_nth'.
      * rewrite nth_overflow in E3 by exact Hge. discriminate.
  - intros (r & j & Hr & Hc & Hq).
    assert (Hx : In [Date d; Str c; Num q] out).
    { unfold out. apply in_flat_map. exists (S j). split.
      - unfold positions_except. apply filter_In. split; [| reflexivity].
        apply in_seq.
        assert (j < length (columns adj))%nat
          by (apply nth_error_Some; congruence).
        lia.
      - apply in_map_iff. exists (Date d :: r). split.
        + unfold cell. simpl.
          rewrite (nth_error_nth _ _ _ Hc), (nth_error_nth _ _ _ Hq).
          reflexivity.
        + apply in_map_iff. exists (d, r). split; [reflexivity | exact Hr]. }
    destruct (@in_combine_some _ _ (range (length out)) out _
                (length_range _) Hx) as [i Hi].
    apply in_map_iff. exists (i, [Date d; Str c; Num q]).
    split; [reflexivity |]. apply filter_In. split; [exact Hi | reflexivity].
Qed.

Lemma tidy_from_wide_observations_witness :
  exists t,
    tidy_from_wide true sample_wide = Ok t /\
    rows t = [[Date 19000; Str (lit "RY.TO"); Num (100 # 1)];
              [Date 19001; Str (lit "RY.TO"); Num (101 # 1)];
              [Date 19001; Str (lit "TD.TO"); Num (80 # 1)]] /\
    (In [Date 19001; Str (lit "TD.TO"); Num (80 # 1)] (rows t) <->
     exists r j,
       In (19001%Z, r)
          (combine (labels (index sample_wide)) (rows sample_wide)) /\
       nth_error (columns sample_wide) j = Some (lit "TD.TO") /\
       nth_error r j = Some (Num (80 # 1))).
Proof.
  destruct (@tidy_from_wide_observations true sample_wide
              eq_refl eq_refl eq_refl eq_refl) as (t & Ht & Heq & Hrows).
  exists t. split; [exact Ht |]. split; [rewrite Heq; reflexivity | apply Hrows].
Defined.

(** X12. The reshaper turns every wide price table (indexed by timestamps
    under the name "Date", cells prices or missing, no column called "Date"
    or "Adj Close") into a tidy price table: three columns Date, Ticker,
    Adj Close, every row a day, a ticker and a price that is present. *)
Theorem tidy_from_wide_gives_tidy (check : bool) (adj : DataFrame) :
  is_wide adj ->
  mem str_eqb (lit "Date") (columns adj) = false ->
  mem str_eqb adj_close (columns adj) = false ->
  exists t, tidy_from_wide check adj = Ok t /\ is_tidy t.
Proof.
  intros Hw Hdate Hadj.
  pose proof Hw as (Hname & Hty & _).
  pose proof (tidy_from_wide_eq check adj Hname Hty Hdate Hadj) as E.
  cbv zeta in E. eexists. split; [exact E |].
  exact (tidy_from_wide_is_tidy check Hw E).
Qed.

Lemma tidy_from_wide_gives_tidy_witness :
  is_wide sample_wide /\
  tidy_from_wide true sample_wide = Ok sample_tidy /\ is_tidy sample_tidy.
Proof.
  assert (Hw : is_wide sample_wide) by (repeat split).
  split; [exact Hw |].
  destruct (@tidy_from_wide_gives_tidy true sample_wide Hw eq_refl eq_refl)
    as [t [Ht Htidy]].
  assert (E : t = sample_tidy).
  { assert (E0 : Ok t = Ok sample_tidy) by (rewrite <- Ht; reflexivity).
    now injection E0. }
  rewrite <- E. split; [exact Ht | exact Htidy].
Defined.

(** X13. A frame whose index is not named "Date" and that has no column
    "Date" cannot be reshaped: the reshaper raises.  This is the case of the
    empty table [pd.DataFrame()], for which it raises [KeyError]. *)
Theorem tidy_from_wide_needs_dates (check : bool) (adj : DataFrame) :
  idx_name (index adj) <> Some (lit "Date") ->
  mem str_eqb (lit "Date") (columns adj) = false ->
  (exists e, tidy_from_wide check adj = Raise e) /\
  tidy_from_wide check empty_frame = Raise KeyError.
Proof.
  intros Hname Hdate. split; [| destruct check; reflexivity].
  unfold tidy_from_wide, bind, reset_index.
  set (name := match idx_name (index adj) with
               | Some n => n
               | None => if mem str_eqb (lit "index") (columns adj)
                         then lit "level_0" else lit "index"
               end).
  assert (Hn : name <> lit "Date").
  { unfold name. destruct (idx_name (index adj)) as [n|]; [congruence |].
    destruct (mem str_eqb (lit "index") (columns adj)); discriminate. }
  destruct (mem str_eqb name (columns adj)); [eauto |].
  unfold melt. cbn [columns].
  destruct (check && _); [eauto |].
  assert (Hi : index_of str_eqb (lit "Date") (name :: columns adj) = None).
  { apply index_of_none_mem. unfold mem in *. cbn [existsb].
    rewrite Hdate, orb_false_r. apply str_eqb_neq. congruence. }
  rewrite Hi. eauto.
Qed.

Lemma tidy_from_wide_needs_dates_witness :
  idx_name (index sample_unindexed) <> Some (lit "Date") /\
  exists e, tidy_from_wide true sample_unindexed = Raise e.
Proof.
  split; [discriminate |].
  refine (proj1 (@tidy_from_wide_needs_dates true sample_unindexed _ _)).
  - discriminate.
  - reflexivity.
Defined.

(** ** Further properties of the filter *)

Lemma filter_zip_labelled (A B : Type) (c : B -> A) (f : A -> bool)
    (rs : list B) (ls : list Z) :
  filter (fun p : A * (Z * B) => f (fst p))
         (combine (map c rs) (combine ls rs))
  = map (fun p => (c (snd p), p))
        (filter (fun p : Z * B => f (c (snd p))) (combine ls rs)).
Proof.
  revert ls; induction rs as [|r rs IH]; intros [|l ls]; simpl;
    try reflexivity.
  rewrite IH. destruct (f (c r)); reflexivity.
Qed.

Lemma combine_map_r (A B C : Type) (g : B -> C) (ls : list A) (xs : list B) :
  combine ls (map g xs) = map (fun p => (fst p, g (snd p))) (combine ls xs).
Proof.
  revert ls; induction xs as [|x xs IH]; intros [|l ls]; simpl;
    try reflexivity.
  now rewrite IH.
Qed.

Lemma filter_none (A : Type) (f : A -> bool) (l : list A) :
  (forall x, In x l -> f x = false) -> filter f l = [].
Proof.
  induction l as [|x l IH]; intros H; simpl; [reflexivity |].
  rewrite (H x) by now left. apply IH. intros y Hy. apply H. now right.
Qed.

Lemma filter_filter_implied (A : Type) (f g : A -> bool) (l : list A) :
  (forall x, f x = true -> g x = true) ->
  filter f (filter g l) = filter f l.
Proof.
  intros H. induction l as [|x l IH]; simpl; [reflexivity |].
  destruct (g x) eqn:Eg; simpl.
  - destruct (f x); now rewrite IH.
  - destruct (f x) eqn:Ef; [| exact IH].
    apply H in Ef. congruence.
Qed.

(** A ticker is listed by [to_remove] exactly if one of its prices is above
    the threshold. *)
Lemma to_remove_view (tidy : DataFrame) (filter_max : Z)
    (trs : list (Z * str * Q)) :
  columns tidy = tidy_columns ->
  rows tidy = map mk_row trs ->
  exists gone,
    to_remove tidy filter_max = Ok gone /\
    (forall v, In v gone -> exists t, v = Str t) /\
    (forall t, In (Str t) gone <->
               exists q, In q (prices_of trs t) /\ (inject_Z filter_max < q)%Q).
Proof.
  intros Hc Hr. eexists.
  split; [exact (@to_remove_tidy tidy filter_max trs Hc Hr) |]. split.
  - intros v Hv. apply filter_In in Hv as [Hv _].
    apply unique_incl, in_map_iff in Hv as [x [<- _]]. eauto.
  - intros t. rewrite filter_In, unique_In_Str, ticker_key_In.
    pose proof (group_max_spec (prices_of trs t)) as Hg.
    destruct (group_max (map Some (prices_of trs t))) as [x|].
    + destruct Hg as [Hin Hall]. rewrite Forall_forall in Hall. split.
      * intros [_ Hgt]. exists x. split; [exact Hin | now apply Qgtb_lt].
      * intros [q [Hq Hlt]].
        split; [intros E; rewrite E in Hq; contradiction |].
        apply Qgtb_lt. eapply Qlt_le_trans; [exact Hlt | now apply Hall].
    + split.
      * intros [_ H]; discriminate.
      * intros [q [Hq _]]. rewrite Hg in Hq. contradiction.
Qed.

(** The typed view of the filtered table. *)
Lemma tidy_filtered_view (tidy : DataFrame) (filter_max : Z)
    (trs : list (Z * str * Q)) (gone : list value) :
  columns tidy = tidy_columns ->
  rows tidy = map mk_row trs ->
  to_remove tidy filter_max = Ok gone ->
  tidy_filtered tidy filter_max =
  Ok (mkDataFrame
        (mkIndex (idx_name (index tidy)) (idx_dtype (index tidy))
           (map fst
              (filter (fun p : Z * (Z * str * Q) =>
                         negb (mem value_eqb (Str (snd (fst (snd p)))) gone))
                      (combine (labels (index tidy)) trs))))
        tidy_columns
        (map (fun p => mk_row (snd p))
             (filter (fun p : Z * (Z * str * Q) =>
                        negb (mem value_eqb (Str (snd (fst (snd p)))) gone))
                     (combine (labels (index tidy)) trs)))).
Proof.
  intros Hc Hr Hg. unfold tidy_filtered, bind, column. rewrite Hg, Hc, Hr.
  change (index_of str_eqb (lit "Ticker") tidy_columns) with (Some 1%nat).
  cbv beta iota.
  rewrite (filter_zip_labelled (cell 1)
             (fun v => negb (mem value_eqb v gone))).
  rewrite combine_map_r. rewrite !map_map. cbn [snd fst].
  assert (E : forall (h : Z * (Z * str * Q) -> bool) (h' : Z * list value -> bool),
             (forall p, h' (fst p, mk_row (snd p)) = h p) ->
             filter h' (map (fun p => (fst p, mk_row (snd p)))
                            (combine (labels (index tidy)) trs))
             = map (fun p => (fst p, mk_row (snd p)))
                   (filter h (combine (labels (index tidy)) trs))).
  { intros h h' Hh. induction (combine (labels (index tidy)) trs) as [|p l IH];
      simpl; [reflexivity |].
    rewrite Hh. destruct (h p); simpl; now rewrite IH. }
  rewrite (E (fun p => negb (mem value_eqb (Str (snd (fst (snd p)))) gone)))
    by reflexivity.
  rewrite !map_map. reflexivity.
Qed.

Lemma is_tidy_view (tidy : DataFrame) :
  is_tidy tidy ->
  exists trs,
    columns tidy = tidy_columns /\
    rows tidy = map mk_row trs /\
    length (labels (index tidy)) = length trs.
Proof.
  intros (Hc & Hrows & Hlen).
  destruct (tidy_rows_view _ Hrows) as [trs Hr].
  exists trs. repeat split; auto. now rewrite Hlen, Hr, length_map.
Qed.

Lemma mk_row_In (d : Z) (t : str) (q : Q) (trs : list (Z * str * Q)) :
  In [Date d; Str t; Num q] (map mk_row trs) <-> In (d, t, q) trs.
Proof.
  rewrite in_map_iff. split.
  - intros [[[d' t'] q'] [E H]]. unfold mk_row in E; simpl in E.
    now inversion E; subst.
  - intros H. now exists (d, t, q).
Qed.

Lemma prices_of_In (trs : list (Z * str * Q)) (t : str) (q : Q) :
  In q (prices_of trs t) <-> exists d, In (d, t, q) trs.
Proof.
  unfold prices_of. rewrite in_map_iff. split.
  - intros [[[d t'] q'] [E H]]. simpl in E; subst q'.
    apply filter_In in H as [H Ht]. simpl in Ht.
    apply str_eqb_eq in Ht; subst t'. eauto.
  - intros [d H]. exists (d, t, q). split; [reflexivity |].
    apply filter_In. split; [exact H | apply str_eqb_refl].
Qed.

(** X14. After the filter no price above the threshold is left: every row
    of the filtered table has a price of at most [filter_max]. *)
Theorem tidy_filtered_bounded (tidy tf : DataFrame) (filter_max : Z)
    (d : Z) (t : str) (q : Q) :
  is_tidy tidy ->
  tidy_filtered tidy filter_max = Ok tf ->
  In [Date d; Str t; Num q] (rows tf) ->
  (q <= inject_Z filter_max)%Q.
Proof.
  intros Ht Hf Hin.
  destruct (is_tidy_view Ht) as (trs & Hc & Hr & Hlen).
  destruct (@to_remove_view tidy filter_max trs Hc Hr) as (gone & Hg & _ & Hspec).
  rewrite (@tidy_filtered_view tidy filter_max trs gone Hc Hr Hg) in Hf.
  inversion Hf; subst tf; clear Hf. cbn [rows] in Hin.
  apply in_map_iff in Hin as [[l [[d' t'] q']] [E Hin]].
  unfold mk_row in E; simpl in E. inversion E; subst; clear E.
  apply filter_In in Hin as [Hin Hkeep]. cbn [snd fst] in Hkeep.
  apply negb_true_iff in Hkeep. apply in_combine_r in Hin.
  apply Qnot_lt_le. intros Hlt.
  assert (Hgone : In (Str t) gone).
  { apply Hspec. exists q. split; [| exact Hlt].
    apply prices_of_In. eauto. }
  apply mem_value_Str in Hgone. congruence.
Qed.

Lemma tidy_filtered_bounded_witness :
  is_tidy sample_tidy /\
  (80 # 1 <= inject_Z 100)%Q.
Proof.
  assert (H : is_tidy sample_tidy) by (repeat split).
  split; [exact H |].
  apply (@tidy_filtered_bounded sample_tidy
           (mkDataFrame (mkIndex None Integer [3%Z]) tidy_columns
                        [[Date 19001; Str (lit "TD.TO"); Num (80 # 1)]])
           100 19001 (lit "TD.TO") (80 # 1) H eq_refl).
  now left.
Defined.

Lemma forallb_tidy_mk_row (trs : list (Z * str * Q)) :
  forallb tidy_row (map mk_row trs) = true.
Proof. induction trs as [|x trs IH]; simpl; [reflexivity | exact IH]. Qed.

(** The table [tidy_filtered] returns, its triples and its kept ones. *)
Lemma tidy_filtered_inv (tidy tf : DataFrame) (filter_max : Z) :
  is_tidy tidy ->
  tidy_filtered tidy filter_max = Ok tf ->
  exists trs gone K,
    columns tidy = tidy_columns /\
    rows tidy = map mk_row trs /\
    length (labels (index tidy)) = length trs /\
    to_remove tidy filter_max = Ok gone /\
    (forall t, In (Str t) gone <->
               exists q, In q (prices_of trs t) /\ (inject_Z filter_max < q)%Q) /\
    K = filter (fun p : Z * (Z * str * Q) =>
                  negb (mem value_eqb (Str (snd (fst (snd p)))) gone))
               (combine (labels (index tidy)) trs) /\
    tf = mkDataFrame
           (mkIndex (idx_name (index tidy)) (idx_dtype (index tidy)) (map fst K))
           tidy_columns
           (map mk_row (map snd K)).
Proof.
  intros Ht Hf.
  destruct (is_tidy_view Ht) as (trs & Hc & Hr & Hlen).
  destruct (@to_remove_view tidy filter_max trs Hc Hr) as (gone & Hg & _ & Hspec).
  rewrite (@tidy_filtered_view tidy filter_max trs gone Hc Hr Hg) in Hf.
  inversion Hf; subst tf; clear Hf.
  exists trs, gone. eexists. repeat split; try eassumption; try apply Hspec.
  now rewrite map_map.
Qed.

Lemma kept_In (gone : list value) (ls : list Z) (trs : list (Z * str * Q))
    (x : Z * str * Q) :
  length ls = length trs ->
  In x (map snd
          (filter (fun p : Z * (Z * str * Q) =>
                     negb (mem value_eqb (Str (snd (fst (snd p)))) gone))
                  (combine ls trs)))
  <-> In x trs /\ ~ In (Str (snd (fst x))) gone.
Proof.
  intros Hlen.
  rewrite (@map_snd_filter_combine _ _
             (fun x => negb (mem value_eqb (Str (snd (fst x))) gone))
             ls trs Hlen).
  rewrite filter_In, negb_true_iff. split.
  - intros [H1 H2]. split; [exact H1 |]. intros H.
    apply mem_value_Str in H. congruence.
  - intros [H1 H2]. split; [exact H1 |].
    destruct (mem value_eqb (Str (snd (fst x))) gone) eqn:E; [| reflexivity].
    apply mem_value_Str in E. contradiction.
Qed.

(** X15. Filtering is idempotent: the filtered table is again a tidy price
    table, no ticker of it exceeds the threshold, and filtering it with the
    same threshold returns it unchanged. *)
Theorem tidy_filtered_idempotent (tidy tf : DataFrame) (filter_max : Z) :
  is_tidy tidy ->
  tidy_filtered tidy filter_max = Ok tf ->
  is_tidy tf /\
  to_remove tf filter_max = Ok [] /\
  tidy_filtered tf filter_max = Ok tf.
Proof.
  intros Ht Hf.
  destruct (@tidy_filtered_inv tidy tf filter_max Ht Hf)
    as (trs & gone & K & Hc & Hr & Hlen & Hg & Hspec & HK & ->).
  set (trs2 := map snd K).
  set (tf2 := mkDataFrame
                (mkIndex (idx_name (index tidy)) (idx_dtype (index tidy))
                         (map fst K))
                tidy_columns (map mk_row trs2)).
  assert (Htidy2 : is_tidy tf2).
  { split; [reflexivity |]. split; [apply forallb_tidy_mk_row |].
    cbn. unfold trs2. now rewrite !length_map. }
  split; [exact Htidy2 |].
  destruct (@to_remove_view tf2 filter_max trs2 eq_refl eq_refl)
    as (gone2 & Hg2 & Hstr2 & Hspec2).
  assert (Hnil : gone2 = []).
  { destruct gone2 as [|v g]; [reflexivity |]. exfalso.
    destruct (Hstr2 v ltac:(now left)) as [t ->].
    assert (Hin : In (Str t) (Str t :: g)) by now left.
    apply Hspec2 in Hin as [q [Hq Hlt]].
    apply prices_of_In in Hq as [d Hq].
    unfold trs2 in Hq. rewrite HK in Hq.
    apply (@kept_In gone _ trs (d, t, q) Hlen) in Hq as [Hq Hnot].
    apply Hnot. cbn [fst snd]. apply Hspec. exists q. split; [| exact Hlt].
    apply prices_of_In. eauto. }
  subst gone2. split; [exact Hg2 |].
  rewrite (@tidy_filtered_view tf2 filter_max trs2 [] eq_refl eq_refl Hg2).
  unfold tf2, trs2. cbn [index idx_name idx_dtype labels mem existsb negb].
  rewrite !combine_fst_snd.
  rewrite !(@filter_all _ (fun _ : Z * (Z * str * Q) => true) K)
    by reflexivity.
  now rewrite map_map.
Qed.

Lemma tidy_filtered_idempotent_witness :
  is_tidy sample_tidy /\
  tidy_filtered
    (mkDataFrame (mkIndex None Integer [3%Z]) tidy_columns
                 [[Date 19001; Str (lit "TD.TO"); Num (80 # 1)]]) 100
  = Ok (mkDataFrame (mkIndex None Integer [3%Z]) tidy_columns
                    [[Date 19001; Str (lit "TD.TO"); Num (80 # 1)]]).
Proof.
  assert (H : is_tidy sample_tidy) by (repeat split).
  split; [exact H |].
  exact (proj2 (proj2 (@tidy_filtered_idempotent sample_tidy _ 100 H eq_refl))).
Defined.

(** X16. Raising the threshold removes fewer tickers: every ticker removed
    at the higher threshold is removed at the lower one, and every row kept
    at the lower threshold is kept at the higher one. *)
Theorem tidy_filtered_monotone (tidy ta tb : DataFrame) (a b : Z) :
  is_tidy tidy ->
  (a <= b)%Z ->
  tidy_filtered tidy a = Ok ta ->
  tidy_filtered tidy b = Ok tb ->
  (exists ga gb,
      to_remove tidy a = Ok ga /\ to_remove tidy b = Ok gb /\ incl gb ga) /\
  incl (rows ta) (rows tb).
Proof.
  intros Ht Hab Ha Hb.
  destruct (is_tidy_view Ht) as (trs & Hc & Hr & Hlen).
  destruct (@to_remove_view tidy a trs Hc Hr) as (ga & Hga & _ & Hsa).
  destruct (@to_remove_view tidy b trs Hc Hr) as (gb & Hgb & Hstr & Hsb).
  assert (Hincl : incl gb ga).
  { intros v Hv. destruct (Hstr v Hv) as [t ->].
    apply Hsa. apply Hsb in Hv as [q [Hq Hlt]].
    exists q. split; [exact Hq |].
    eapply Qle_lt_trans; [| exact Hlt].
    rewrite <- Zle_Qle. exact Hab. }
  split; [exists ga, gb; auto |].
  rewrite (@tidy_filtered_view tidy a trs ga Hc Hr Hga) in Ha.
  rewrite (@tidy_filtered_view tidy b trs gb Hc Hr Hgb) in Hb.
  inversion Ha; subst ta; clear Ha. inversion Hb; subst tb; clear Hb.
  cbn [rows]. intros r Hin.
  rewrite <- map_map in Hin |- *.
  apply in_map_iff in Hin as [x [<- Hx]]. apply in_map.
  apply (@kept_In ga _ trs x Hlen) in Hx as [Hx Hnot].
  apply (@kept_In gb _ trs x Hlen). split; [exact Hx |].
  intros H. apply Hnot. now apply Hincl.
Qed.

Lemma tidy_filtered_monotone_witness :
  is_tidy sample_tidy /\ (100 <= 101)%Z /\
  incl [[Date 19001; Str (lit "TD.TO"); Num (80 # 1)]] (rows sample_tidy).
Proof.
  assert (H : is_tidy sample_tidy) by (repeat split).
  split; [exact H |]. split; [lia |].
  exact (proj2 (@tidy_filtered_monotone sample_tidy _ sample_tidy 100 101 H
                  ltac:(lia) eq_refl eq_refl)).
Defined.

(** ** The pagination list *)

Lemma filter_map_Str (x : str) (u : list str) :
  filter (fun v => negb (value_eqb (Str x) v)) (map Str u)
  = map Str (filter (fun y => negb (str_eqb x y)) u).
Proof.
  induction u as [|y u IH]; [reflexivity |].
  cbn [map filter]. rewrite IH.
  change (value_eqb (Str x) (Str y)) with (str_eqb x y).
  destruct (str_eqb x y); reflexivity.
Qed.

Lemma unique_map_Str (l : list str) :
  unique value_eqb (map Str l) = map Str (unique str_eqb l).
Proof.
  induction l as [|x l IH]; [reflexivity |].
  cbn [map unique]. now rewrite IH, filter_map_Str.
Qed.

Lemma mapM_as_str (l : list str) : mapM as_str (map Str l) = Ok l.
Proof. induction l as [|x l IH]; simpl; [reflexivity | now rewrite IH]. Qed.

Lemma filter_notna_Str (l : list str) :
  filter (fun k => negb (isna k)) (map Str l) = map Str l.
Proof. induction l as [|x l IH]; simpl; [reflexivity | now rewrite IH]. Qed.

(** X17. The pagination list computed from the filtered table is sorted and
    free of duplicates, and it consists of exactly the tickers of the tidy
    table none of whose observed prices is above the threshold. *)
Theorem all_tickers_after_filter (tidy tf : DataFrame) (filter_max : Z) :
  is_tidy tidy ->
  tidy_filtered tidy filter_max = Ok tf ->
  exists ts,
    all_tickers_of tf = Ok ts /\
    Sorted str_le ts /\
    NoDup ts /\
    forall t,
      In t ts <->
      (exists q, observed tidy t q) /\
      (forall q, observed tidy t q -> (q <= inject_Z filter_max)%Q).
Proof.
  intros Ht Hf.
  destruct (@tidy_filtered_inv tidy tf filter_max Ht Hf)
    as (trs & gone & K & Hc & Hr & Hlen & Hg & Hspec & HK & ->).
  exists (sorted (unique str_eqb (map (fun x => snd (fst x)) (map snd K)))).
  split.
  { unfold all_tickers_of, bind, column. cbn [columns rows].
    change (index_of str_eqb (lit "Ticker") tidy_columns) with (Some 1%nat).
    cbv beta iota. rewrite !map_map. unfold mk_row, cell. cbn [nth].
    rewrite <- (map_map (fun p : Z * (Z * str * Q) => snd (fst (snd p))) Str).
    rewrite filter_notna_Str, unique_map_Str, mapM_as_str.
    now rewrite <- (map_map snd (fun x : Z * str * Q => snd (fst x))). }
  split; [apply sorted_Sorted |].
  split; [apply sorted_NoDup, unique_str_NoDup |].
  intros t. rewrite sorted_In, unique_str_In, in_map_iff.
  assert (Hobs : forall q, observed tidy t q <-> exists d, In (d, t, q) trs).
  { intros q. unfold observed. rewrite Hr.
    split; intros [d H]; exists d; now apply mk_row_In. }
  split.
  - intros [[[d t'] q] [E Hx]]. simpl in E. subst t'.
    rewrite HK in Hx. apply (@kept_In gone _ trs (d, t, q) Hlen) in Hx as [Hx Hnot].
    cbn [fst snd] in Hnot. split.
    + exists q. apply Hobs. eauto.
    + intros q' Hq'. apply Qnot_lt_le. intros Hlt. apply Hnot.
      apply Hspec. exists q'. split; [| exact Hlt].
      apply prices_of_In. now apply Hobs.
  - intros [[q Hq] Hall]. apply Hobs in Hq as [d Hq].
    exists (d, t, q). split; [reflexivity |].
    rewrite HK. apply (@kept_In gone _ trs (d, t, q) Hlen).
    split; [exact Hq |]. cbn [fst snd]. intros Hin.
    apply Hspec in Hin as [q' [Hq' Hlt]].
    apply prices_of_In in Hq'. apply Hobs in Hq'. apply Hall in Hq'.
    exact (Qlt_not_le _ _ Hlt Hq').
Qed.

Lemma all_tickers_after_filter_witness :
  is_tidy sample_tidy /\
  exists ts,
    all_tickers_of
      (mkDataFrame (mkIndex None Integer [3%Z]) tidy_columns
                   [[Date 19001; Str (lit "TD.TO"); Num (80 # 1)]]) = Ok ts /\
    Sorted str_le ts /\ NoDup ts.
Proof.
  assert (H : is_tidy sample_tidy) by (repeat split).
  split; [exact H |].
  destruct (@all_tickers_after_filter sample_tidy _ 100 H eq_refl)
    as (ts & H1 & H2 & H3 & _).
  exists ts. repeat split; assumption.
Defined.

(** ** Further properties of the paginator *)

Lemma slice_firstn_skipn (A : Type) (l : list A) (a b : Z) :
  (0 <= a <= b)%Z ->
  slice l a b = firstn (Z.to_nat b - Z.to_nat a) (skipn (Z.to_nat a) l).
Proof.
  intros Hab. unfold slice, norm_index.
  destruct (Z.ltb_spec a 0); [lia |]. destruct (Z.ltb_spec b 0); [lia |].
  destruct (Z.le_gt_cases (Z.of_nat (length l)) a) as [Hge | Hlt].
  - rewrite !skipn_all2 by lia. now rewrite !firstn_nil.
  - replace (Z.to_nat (Z.min a (Z.of_nat (length l)))) with (Z.to_nat a) by lia.
    destruct (Z.le_gt_cases b (Z.of_nat (length l))) as [Hb | Hb].
    + f_equal. lia.
    + rewrite !firstn_all2; [reflexivity | |]; rewrite length_skipn; lia.
Qed.

Lemma firstn_add_skipn (A : Type) (a c : nat) (l : list A) :
  firstn (a + c) l = firstn a l ++ firstn c (skipn a l).
Proof.
  revert l; induction a as [|a IH]; intros l; simpl; [reflexivity |].
  destruct l as [|x l]; simpl; [now rewrite firstn_nil |].
  now rewrite IH.
Qed.

(** Consecutive slices of length [pp] tile a list. *)
Lemma slices_tile (A : Type) (l : list A) (pp : Z) (m : nat) :
  (1 <= pp)%Z ->
  concat (map (fun k => slice l (Z.of_nat k * pp) (Z.of_nat k * pp + pp))
              (seq 0 m))
  = firstn (m * Z.to_nat pp) l.
Proof.
  intros Hpp. induction m as [|m IH]; [reflexivity |].
  rewrite seq_S, map_app, concat_app, IH. simpl.
  rewrite app_nil_r, slice_firstn_skipn by nia.
  replace (Z.to_nat (Z.of_nat m * pp + pp) - Z.to_nat (Z.of_nat m * pp))%nat
    with (Z.to_nat pp) by nia.
  replace (Z.to_nat (Z.of_nat m * pp)) with (m * Z.to_nat pp)%nat by nia.
  rewrite <- firstn_add_skipn. f_equal. lia.
Qed.

Lemma select_page_in_range (all_tickers : list str) (always_keep : str)
    (page_size page : Z) :
  (1 <= page <= total_pages all_tickers always_keep page_size)%Z ->
  select_page all_tickers always_keep page_size page =
  sorted ((if has_keep all_tickers always_keep then [always_keep] else []) ++
          slice (others all_tickers always_keep)
                ((page - 1) * per_page all_tickers always_keep page_size)
                ((page - 1) * per_page all_tickers always_keep page_size
                 + per_page all_tickers always_keep page_size)).
Proof.
  intros Hp. unfold select_page.
  replace (Z.max 1 (Z.min page (total_pages all_tickers always_keep page_size)))
    with page by lia.
  destruct (has_keep all_tickers always_keep); reflexivity.
Qed.

Lemma concat_prefixed_perm (A : Type) (pre : list A) (f : Z -> list A)
    (g : Z -> list A) (ks : list Z) :
  (forall k, In k ks -> Permutation (g k) (pre ++ f k)) ->
  Permutation (concat (map g ks))
              (concat (map f ks) ++ concat (map (fun _ => pre) ks)).
Proof.
  induction ks as [|k ks IH]; intros H; simpl; [reflexivity |].
  rewrite (H k) by now left. rewrite IH by (intros; apply H; now right).
  transitivity ((f k ++ pre) ++
                concat (map f ks) ++ concat (map (fun _ => pre) ks)).
  - apply Permutation_app_tail, Permutation_app_comm.
  - rewrite <- !app_assoc. apply Permutation_app_head.
    apply Permutation_app_swap_app.
Qed.

Lemma concat_const_singleton (A : Type) (x : A) (ks : list Z) :
  concat (map (fun _ => [x]) ks) = repeat x (length ks).
Proof. induction ks as [|k ks IH]; simpl; [reflexivity | now rewrite IH]. Qed.

Lemma concat_const_nil (A : Type) (ks : list Z) :
  concat (map (fun _ => @nil A) ks) = [].
Proof. induction ks as [|k ks IH]; simpl; [reflexivity | exact IH]. Qed.

Lemma per_page_ge_1 (all_tickers : list str) (always_keep : str)
    (page_size : Z) :
  (2 <= page_size)%Z -> (1 <= per_page all_tickers always_keep page_size)%Z.
Proof. unfold per_page. destruct (has_keep _ _); lia. Qed.

Lemma total_pages_covers (all_tickers : list str) (always_keep : str)
    (page_size : Z) :
  (1 <= per_page all_tickers always_keep page_size)%Z ->
  (Z.of_nat (length (others all_tickers always_keep))
   <= total_pages all_tickers always_keep page_size
      * per_page all_tickers always_keep page_size)%Z.
Proof.
  intros Hpp. unfold total_pages.
  replace (Z.max 1 (per_page all_tickers always_keep page_size))
    with (per_page all_tickers always_keep page_size) by lia.
  pose proof (@ceil_div_bounds
                (Z.of_nat (length (others all_tickers always_keep)))
                (per_page all_tickers always_keep page_size) ltac:(lia)).
  nia.
Qed.

(** X18. The pages partition the ticker list: over the pages
    [1 .. total_pages], every ticker other than the pinned one is selected
    exactly as often as it occurs in the list (once, for a list without
    duplicates), and the pinned ticker, if present, once on every page. *)
Theorem select_page_partition (all_tickers : list str) (always_keep : str)
    (page_size : Z) :
  (2 <= page_size)%Z ->
  Permutation
    (concat (map (select_page all_tickers always_keep page_size)
                 (page_numbers (total_pages all_tickers always_keep page_size))))
    (others all_tickers always_keep ++
     repeat always_keep
            (if has_keep all_tickers always_keep
             then Z.to_nat (total_pages all_tickers always_keep page_size)
             else 0%nat)).
Proof.
  intros HP.
  pose proof (per_page_ge_1 all_tickers always_keep HP) as Hpp.
  pose proof (total_pages_ge_1 all_tickers always_keep page_size) as Htp.
  pose proof (total_pages_covers all_tickers always_keep page_size Hpp) as Hcov.
  set (tp := total_pages all_tickers always_keep page_size) in *.
  set (pp := per_page all_tickers always_keep page_size) in *.
  set (pre := if has_keep all_tickers always_keep then [always_keep] else []).
  rewrite (@concat_prefixed_perm _ pre
             (fun p => slice (others all_tickers always_keep)
                             ((p - 1) * pp) ((p - 1) * pp + pp))).
  - apply Permutation_app.
    + unfold page_numbers. rewrite map_map.
      rewrite (map_ext _ (fun k => slice (others all_tickers always_keep)
                                         (Z.of_nat k * pp)
                                         (Z.of_nat k * pp + pp)))
        by (intros k; now replace (Z.of_nat k + 1 - 1)%Z with (Z.of_nat k) by lia).
      rewrite slices_tile by exact Hpp.
      rewrite firstn_all2 by nia. reflexivity.
    + unfold pre, page_numbers.
      destruct (has_keep all_tickers always_keep).
      * rewrite concat_const_singleton, length_map, length_seq. reflexivity.
      * now rewrite concat_const_nil.
  - intros p Hp. unfold page_numbers in Hp.
    apply in_map_iff in Hp as [k [<- Hk]]. apply in_seq in Hk.
    rewrite select_page_in_range by (fold tp; lia).
    apply sort_by_perm.
Qed.

Lemma select_page_partition_witness :
  (2 <= 3)%Z /\
  Permutation
    (concat (map (select_page [lit "A"; lit "B"; lit "C"; lit "D"; lit "E"]
                              (lit "A") 3)
                 [1%Z; 2%Z]))
    ([lit "B"; lit "C"; lit "D"; lit "E"] ++ [lit "A"; lit "A"]).
Proof.
  split; [lia |].
  exact (@select_page_partition
           [lit "A"; lit "B"; lit "C"; lit "D"; lit "E"] (lit "A") 3
           ltac:(lia)).
Defined.

Lemma others_In (all_tickers : list str) (always_keep t : str) :
  In t (others all_tickers always_keep) <->
  In t all_tickers /\ t <> always_keep.
Proof.
  unfold others. rewrite filter_In, negb_true_iff, str_eqb_neq. tauto.
Qed.

Lemma in_firstn (A : Type) (n : nat) (l : list A) (x : A) :
  In x (firstn n l) -> In x l.
Proof.
  intros H. rewrite <- (firstn_skipn n l). apply in_or_app. now left.
Qed.

Lemma in_skipn (A : Type) (n : nat) (l : list A) (x : A) :
  In x (skipn n l) -> In x l.
Proof.
  intros H. rewrite <- (firstn_skipn n l). apply in_or_app. now right.
Qed.

Lemma slice_incl (A : Type) (l : list A) (a b : Z) : incl (slice l a b) l.
Proof.
  unfold slice. intros x Hx.
  apply in_firstn in Hx. now apply in_skipn in Hx.
Qed.

Lemma NoDup_firstn (A : Type) (n : nat) (l : list A) :
  NoDup l -> NoDup (firstn n l).
Proof.
  intros H. rewrite <- (firstn_skipn n l) in H.
  now apply NoDup_app_remove_r in H.
Qed.

Lemma NoDup_skipn (A : Type) (n : nat) (l : list A) :
  NoDup l -> NoDup (skipn n l).
Proof.
  intros H. rewrite <- (firstn_skipn n l) in H.
  now apply NoDup_app_remove_l in H.
Qed.

Lemma select_page_incl (all_tickers : list str) (always_keep : str)
    (page_size page : Z) :
  incl (select_page all_tickers always_keep page_size page) all_tickers.
Proof.
  unfold select_page.
  set (sl := slice (others all_tickers always_keep) _ _).
  assert (Hsl : incl sl (others all_tickers always_keep)) by apply slice_incl.
  intros t Ht. apply (proj1 (sorted_In _ _)) in Ht.
  destruct (has_keep all_tickers always_keep) eqn:Hk.
  - apply in_inv in Ht as [<- | Ht]; [now apply mem_str_In |].
    now apply Hsl, others_In in Ht.
  - now apply Hsl, others_In in Ht.
Qed.

(** X19. A page shows only tickers of the pagination list, whatever the
    page number, and shows none of them twice when the list has no
    duplicates. *)
Theorem select_page_subset (all_tickers : list str) (always_keep : str)
    (page_size page : Z) :
  NoDup all_tickers ->
  incl (select_page all_tickers always_keep page_size page) all_tickers /\
  NoDup (select_page all_tickers always_keep page_size page).
Proof.
  intros Hnd. split; [apply select_page_incl |].
  unfold select_page.
  set (sl := slice (others all_tickers always_keep) _ _).
  assert (Hsl : incl sl (others all_tickers always_keep)) by apply slice_incl.
  apply sorted_NoDup.
  assert (Hnsl : NoDup sl).
  { unfold sl, slice. apply NoDup_firstn, NoDup_skipn.
    unfold others. now apply NoDup_filter. }
  destruct (has_keep all_tickers always_keep); [| exact Hnsl].
  constructor; [| exact Hnsl].
  intros Hin. apply Hsl, others_In in Hin. tauto.
Qed.

Lemma select_page_subset_witness :
  NoDup sample_tickers /\
  incl (select_page sample_tickers (lit "CNR.TO") 5 7) sample_tickers /\
  NoDup (select_page sample_tickers (lit "CNR.TO") 5 7).
Proof.
  assert (H : NoDup sample_tickers).
  { unfold sample_tickers.
    repeat (constructor;
            [simpl; intros Hin;
             repeat (destruct Hin as [Hin | Hin]; [discriminate |]);
             exact Hin |]).
    constructor. }
  split; [exact H |].
  exact (@select_page_subset sample_tickers (lit "CNR.TO") 5 7 H).
Defined.

(** X20. No page is blank: if a ticker other than the pinned one remains,
    every page from 1 to [total_pages] shows at least one such ticker. *)
Theorem select_page_nonempty (all_tickers : list str) (always_keep : str)
    (page_size page : Z) :
  (2 <= page_size)%Z ->
  others all_tickers always_keep <> [] ->
  (1 <= page <= total_pages all_tickers always_keep page_size)%Z ->
  exists t,
    t <> always_keep /\
    In t all_tickers /\
    In t (select_page all_tickers always_keep page_size page).
Proof.
  intros HP Hne Hp.
  pose proof (per_page_ge_1 all_tickers always_keep HP) as Hpp.
  rewrite select_page_in_range by exact Hp.
  set (pp := per_page all_tickers always_keep page_size) in *.
  set (os := others all_tickers always_keep) in *.
  assert (HN : (1 <= Z.of_nat (length os))%Z).
  { destruct os; [congruence | simpl; lia]. }
  assert (Hstart : ((page - 1) * pp < Z.of_nat (length os))%Z).
  { unfold total_pages in Hp. fold os pp in Hp.
    replace (Z.max 1 pp) with pp in Hp by lia.
    pose proof (@ceil_div_bounds (Z.of_nat (length os)) pp ltac:(lia)).
    pose proof (@ceil_div_pos (Z.of_nat (length os)) pp ltac:(lia) HN).
    nia. }
  rewrite slice_firstn_skipn by nia.
  destruct (skipn (Z.to_nat ((page - 1) * pp)) os) as [|t rest] eqn:Es.
  { apply (f_equal (@length str)) in Es. rewrite length_skipn in Es.
    simpl in Es. lia. }
  assert (Hin : In t os).
  { apply (@in_skipn _ (Z.to_nat ((page - 1) * pp))). rewrite Es. now left. }
  destruct (Z.to_nat ((page - 1) * pp + pp) - Z.to_nat ((page - 1) * pp))%nat
    as [|n] eqn:En; [nia |].
  exists t. apply others_In in Hin as [Hin Hneq].
  split; [exact Hneq |]. split; [exact Hin |].
  apply sorted_In. apply in_or_app. right. simpl. now left.
Qed.

Lemma select_page_nonempty_witness :
  (2 <= 3)%Z /\
  exists t,
    t <> lit "A" /\
    In t [lit "A"; lit "B"; lit "C"; lit "D"; lit "E"] /\
    In t (select_page [lit "A"; lit "B"; lit "C"; lit "D"; lit "E"]
                      (lit "A") 3 2).
Proof.
  split; [lia |].
  apply (@select_page_nonempty
           [lit "A"; lit "B"; lit "C"; lit "D"; lit "E"] (lit "A") 3 2).
  - lia.
  - discriminate.
  - split; [lia | discriminate].
Defined.

Lemma others_without_keep (all_tickers : list str) (always_keep : str) :
  has_keep all_tickers always_keep = false ->
  others all_tickers always_keep = all_tickers.
Proof.
  intros Hk. unfold others. apply filter_all. intros t Ht.
  apply negb_true_iff, str_eqb_neq. intros ->.
  apply mem_str_In in Ht. unfold has_keep in Hk. congruence.
Qed.

(** X21. Without the pinned ticker in the list, a page holds [page_size]
    tickers and the page count for [N] tickers is the ceiling of
    [N / page_size], the least [k] with [N <= k * page_size], or 1 for an
    empty list. *)
Theorem total_pages_unpinned (all_tickers : list str) (always_keep : str)
    (page_size : Z) :
  has_keep all_tickers always_keep = false ->
  (1 <= page_size)%Z ->
  let N := Z.of_nat (length all_tickers) in
  let tp := total_pages all_tickers always_keep page_size in
  per_page all_tickers always_keep page_size = page_size /\
  ((1 <= N)%Z -> ((tp - 1) * page_size < N <= tp * page_size)%Z) /\
  (N = 0%Z -> tp = 1%Z).
Proof.
  intros Hk HP N tp. subst N tp.
  unfold total_pages, per_page. rewrite Hk, (others_without_keep _ _ Hk).
  replace (Z.max 1 page_size) with page_size by lia.
  split; [reflexivity |]. split.
  - intros HN.
    pose proof (@ceil_div_pos _ page_size ltac:(lia) HN).
    pose proof (@ceil_div_bounds (Z.of_nat (length all_tickers)) page_size
                  ltac:(lia)).
    replace (Z.max 1 (ceil_div (Z.of_nat (length all_tickers)) page_size))
      with (ceil_div (Z.of_nat (length all_tickers)) page_size) by lia.
    assumption.
  - intros ->. reflexivity.
Qed.

Lemma total_pages_unpinned_witness :
  has_keep sample_tickers (lit "CNR.TO") = false /\ (1 <= 5)%Z /\
  per_page sample_tickers (lit "CNR.TO") 5 = 5%Z.
Proof.
  split; [reflexivity |]. split; [lia |].
  exact (proj1 (@total_pages_unpinned sample_tickers (lit "CNR.TO") 5
                  eq_refl ltac:(lia))).
Defined.

(** ** Further properties of the page counter *)

Lemma runs_ge_1_from (inputs : list (list str * settings * clicks))
    (st : session) :
  (1 <= match st with Some p => p | None => 1%Z end)%Z ->
  (1 <= match runs inputs st with Some p => p | None => 1%Z end)%Z.
Proof.
  revert st; induction inputs as [|[[ts cfg] c] inputs IH]; intros st Hst;
    simpl; [exact Hst |].
  apply IH. simpl. apply controls_ge_1; [apply total_pages_ge_1 | exact Hst].
Qed.

(** X22. Whatever the runs of a session are (ticker lists, settings and
    clicks may change from run to run), the stored page counter never drops
    below 1; and a run with a click on Next leaves the counter at or below
    the page count of that run. *)
Theorem page_counter_never_below_1
    (inputs : list (list str * settings * clicks)) :
  (1 <= match runs inputs None with Some p => p | None => 1%Z end)%Z /\
  forall ts cfg prev st,
    match fst (run_pagination ts cfg (mkClicks prev true) st) with
    | Some p =>
        (p <= total_pages ts (strip (upper (always_keep_input cfg)))
                          (page_size_input cfg))%Z
    | None => False
    end.
Proof.
  split; [apply runs_ge_1_from; simpl; lia |].
  intros ts cfg prev st. unfold run_pagination, controls. simpl. lia.
Qed.

(** ** Presentation *)

Example format_ticker_lines_sample :
  format_ticker_lines [lit "A"; lit "B"; lit "C"] 2
  = Ok (span (lit "A") ++ ticker_sep ++ span (lit "B") ++ br ++ span (lit "C")).
Proof. reflexivity. Qed.

(** The loop over [enumerate(seg)] puts the separator between two tickers
    and nowhere else. *)
Lemma line_parts_join (seg : list str) (j : Z) :
  concat (line_parts (j + Z.of_nat (length seg)) j seg)
  = join ticker_sep (map span seg).
Proof.
  revert j; induction seg as [|t seg IH]; intros j; [reflexivity |].
  cbn [line_parts map length].
  replace (j + Z.of_nat (S (length seg)))%Z
    with (j + 1 + Z.of_nat (length seg))%Z by lia.
  destruct seg as [|t' seg].
  - simpl length. replace (j =? j + 1 + Z.of_nat 0 - 1)%Z with true
      by (symmetry; apply Z.eqb_eq; lia).
    simpl. now rewrite !app_nil_r.
  - replace (j =? j + 1 + Z.of_nat (length (t' :: seg)) - 1)%Z with false
      by (symmetry; apply Z.eqb_neq; simpl length; lia).
    cbn [app concat]. rewrite IH. reflexivity.
Qed.

Lemma render_line_join (seg : list str) :
  render_line seg = join ticker_sep (map span seg).
Proof. unfold render_line. apply (line_parts_join seg 0). Qed.

(** X23. For a positive [per_line] the formatter cuts the tickers into
    consecutive groups, each with at least one and at most [per_line]
    tickers and together making up the whole list in order; a group becomes
    the spans of its tickers joined by the separator (no separator at the end
    of a line), and the lines are joined by a line break. *)
Theorem format_ticker_lines_groups (items : list str) (per_line : Z) :
  (1 <= per_line)%Z ->
  exists segs,
    format_ticker_lines items per_line =
    Ok (join br (map (fun seg => join ticker_sep (map span seg)) segs)) /\
    concat segs = items /\
    Forall (fun seg => seg <> [] /\ (Z.of_nat (length seg) <= per_line)%Z) segs.
Proof.
  intros Hp.
  set (n := Z.of_nat (length items)).
  set (count := Z.to_nat (Z.max 0 (ceil_div n per_line))).
  exists (map (fun k => slice items (Z.of_nat k * per_line)
                              (Z.of_nat k * per_line + per_line))
              (seq 0 count)).
  assert (Hcount : (n <= Z.of_nat count * per_line)%Z /\
                   ((Z.of_nat count - 1) * per_line < n \/ count = 0%nat)%Z).
  { pose proof (@ceil_div_bounds n per_line ltac:(lia)) as Hb.
    unfold count. destruct (Z.le_gt_cases (ceil_div n per_line) 0).
    - replace (Z.max 0 (ceil_div n per_line)) with 0%Z by lia.
      split; [| now right]. unfold n in *. nia.
    - replace (Z.max 0 (ceil_div n per_line)) with (ceil_div n per_line) by lia.
      rewrite Z2Nat.id by lia. split; [lia | left; lia]. }
  split; [| split].
  - unfold format_ticker_lines, range_step, bind.
    destruct (Z.eqb_spec per_line 0); [lia |].
    destruct (Z.ltb_spec 0 per_line); [| lia].
    fold n. fold count. rewrite !map_map. do 2 f_equal.
    apply map_ext. intros k. apply render_line_join.
  - rewrite slices_tile by exact Hp.
    apply firstn_all2. unfold n in Hcount. nia.
  - apply Forall_forall. intros seg Hseg.
    apply in_map_iff in Hseg as [k [<- Hk]]. apply in_seq in Hk.
    split.
    + rewrite slice_firstn_skipn by nia.
      destruct Hcount as [_ [Hlt | Hz]]; [| lia].
      destruct (skipn (Z.to_nat (Z.of_nat k * per_line)) items) eqn:Es.
      { apply (f_equal (@length str)) in Es. rewrite length_skipn in Es.
        simpl in Es. unfold n in Hlt. nia. }
      destruct (Z.to_nat (Z.of_nat k * per_line + per_line)
                - Z.to_nat (Z.of_nat k * per_line))%nat eqn:En; [nia |].
      discriminate.
    + pose proof (@slice_length_le _ items (Z.of_nat k * per_line)
                    (Z.of_nat k * per_line + per_line) ltac:(nia) ltac:(lia)).
      lia.
Qed.

Lemma format_ticker_lines_groups_witness :
  (1 <= 2)%Z /\
  exists segs,
    format_ticker_lines [lit "A"; lit "B"; lit "C"] 2 =
    Ok (join br (map (fun seg => join ticker_sep (map span seg)) segs)) /\
    concat segs = [lit "A"; lit "B"; lit "C"].
Proof.
  split; [lia |].
  destruct (@format_ticker_lines_groups [lit "A"; lit "B"; lit "C"] 2
              ltac:(lia)) as (segs & H1 & H2 & _).
  exists segs. split; assumption.
Defined.

(** X24. The formatter raises [ValueError] for [per_line = 0] (the step of
    [range]); it returns the empty string for an empty ticker list, and for
    every ticker list when [per_line] is negative. *)
Theorem format_ticker_lines_edges (items : list str) (p : positive) :
  format_ticker_lines items 0 = Raise ValueError /\
  format_ticker_lines [] (Z.pos p) = Ok [] /\
  format_ticker_lines items (Z.neg p) = Ok [].
Proof.
  split; [reflexivity |]. split.
  - unfold format_ticker_lines, range_step, bind. simpl Z.eqb. cbv iota.
    replace (0 <? Z.pos p)%Z with true by (symmetry; apply Z.ltb_lt; lia).
    replace (Z.to_nat (Z.max 0 (ceil_div (Z.of_nat (@length str [])) (Z.pos p))))
      with 0%nat; [reflexivity |].
    unfold ceil_div. simpl. reflexivity.
  - unfold format_ticker_lines, range_step, bind. simpl Z.eqb. cbv iota.
    replace (0 <? Z.neg p)%Z with false by (symmetry; apply Z.ltb_ge; lia).
    replace (Z.to_nat (Z.max 0 (ceil_div (- Z.of_nat (length items))
                                         (- Z.neg p))))
      with 0%nat; [reflexivity |].
    unfold ceil_div. rewrite Z.opp_involutive.
    pose proof (Z.div_pos (Z.of_nat (length items)) (- Z.neg p)
                  ltac:(lia) ltac:(lia)).
    lia.
Qed.

(** ** Plot data *)

Lemma all_tickers_of_tidy (tf : DataFrame) (trs : list (Z * str * Q)) :
  columns tf = tidy_columns ->
  rows tf = map mk_row trs ->
  all_tickers_of tf =
  Ok (sorted (unique str_eqb (map (fun x => snd (fst x)) trs))).
Proof.
  intros Hc Hr. unfold all_tickers_of, bind, column. rewrite Hc, Hr.
  change (index_of str_eqb (lit "Ticker") tidy_columns) with (Some 1%nat).
  cbv beta iota. rewrite !map_map. unfold mk_row, cell. cbn [nth].
  rewrite <- (map_map (fun x : Z * str * Q => snd (fst x)) Str).
  now rewrite filter_notna_Str, unique_map_Str, mapM_as_str.
Qed.

Lemma mem_value_map_Str (t : str) (sel : list str) :
  mem value_eqb (Str t) (map Str sel) = true <-> In t sel.
Proof.
  rewrite mem_value_Str, in_map_iff. split.
  - intros [x [E H]]. now inversion E; subst.
  - intros H. now exists t.
Qed.

(** X25. The chart of a page draws exactly the rows of the filtered table
    whose ticker is on the page, each once and in the order of the table,
    and every ticker on the page has at least one row to draw. *)
Theorem plot_df_page (tf : DataFrame) (ts : list str) (always_keep : str)
    (page_size page : Z) :
  is_tidy tf ->
  all_tickers_of tf = Ok ts ->
  exists pf,
    plot_df tf (select_page ts always_keep page_size page) = Ok pf /\
    rows pf =
      filter (fun r =>
                mem value_eqb (cell 1 r)
                    (map Str (select_page ts always_keep page_size page)))
             (rows tf) /\
    (forall d t q,
        In [Date d; Str t; Num q] (rows pf) <->
        In [Date d; Str t; Num q] (rows tf) /\
        In t (select_page ts always_keep page_size page)) /\
    (forall t,
        In t (select_page ts always_keep page_size page) ->
        exists d q, In [Date d; Str t; Num q] (rows pf)).
Proof.
  intros Ht Hts.
  destruct (is_tidy_view Ht) as (trs & Hc & Hr & Hlen).
  rewrite (all_tickers_of_tidy tf trs Hc Hr) in Hts.
  inversion Hts; subst ts; clear Hts.
  set (sel := select_page _ always_keep page_size page).
  assert (Hrows :
    forall d t q,
      In [Date d; Str t; Num q]
         (map (fun p : value * (Z * list value) => snd (snd p))
              (filter (fun p => mem value_eqb (fst p) (map Str sel))
                      (combine (map (cell 1) (rows tf))
                               (combine (labels (index tf)) (rows tf)))))
      <-> In [Date d; Str t; Num q] (rows tf) /\ In t sel).
  { intros d t q.
    rewrite (@filter_zip_rows value (cell 1)
               (fun v => mem value_eqb v (map Str sel))
               (rows tf) (labels (index tf)))
      by (rewrite Hlen, Hr; now rewrite length_map).
    rewrite filter_In. unfold cell. cbn [nth].
    now rewrite mem_value_map_Str. }
  eexists. split; [| split; [| split]].
  - unfold plot_df, bind, column. rewrite Hc.
    change (index_of str_eqb (lit "Ticker") tidy_columns) with (Some 1%nat).
    reflexivity.
  - cbn [rows].
    apply (@filter_zip_rows value (cell 1)
             (fun v => mem value_eqb v (map Str sel))
             (rows tf) (labels (index tf))).
    rewrite Hlen, Hr. now rewrite length_map.
  - cbn [rows]. exact Hrows.
  - intros t Hsel. cbn [rows].
    pose proof (@select_page_incl _ always_keep page_size page t Hsel) as Hin.
    apply sorted_In, unique_str_In, in_map_iff in Hin as [[[d t'] q] [E Hx]].
    simpl in E. subst t'. exists d, q.
    apply Hrows. split; [| exact Hsel].
    rewrite Hr. now apply mk_row_In.
Qed.

Lemma plot_df_page_witness :
  is_tidy sample_tidy /\
  exists pf,
    plot_df sample_tidy
            (select_page [lit "RY.TO"; lit "TD.TO"] (lit "CNR.TO") 1 2)
      = Ok pf /\
    rows pf = [[Date 19001; Str (lit "TD.TO"); Num (80 # 1)]] /\
    exists d q, In [Date d; Str (lit "TD.TO"); Num q] (rows pf).
Proof.
  assert (H : is_tidy sample_tidy) by (repeat split).
  split; [exact H |].
  destruct (@plot_df_page sample_tidy [lit "RY.TO"; lit "TD.TO"]
              (lit "CNR.TO") 1 2 H eq_refl) as (pf & H1 & H2 & _ & H3).
  exists pf. split; [exact H1 |]. split; [rewrite H2; reflexivity |].
  apply H3. now left.
Defined.
